(** * AuroraMind AI service: a shallow embedding of [ai-service/main.py]

    The module is a FastAPI application with two flows: document ingestion
    (extract, chunk, embed, upsert, with the job status kept in the
    process-wide dictionary [DOCUMENTS]) and a streaming question-answering
    endpoint with a canned fallback.  The Python functions are rendered as
    Rocq functions of the same names.  Module globals and the vector index
    are threaded as an explicit state; the libraries the module calls
    (pathlib and open, pypdf, langchain, OpenAI, Pinecone) are the fields of
    a record of oracles, each of which either returns or raises.  *)

From stdpp Require Import gmap strings list fin_maps.
From Stdlib Require Import ZArith Lia DecimalString DecimalNat.

Open Scope Z_scope.

(** ** Python values *)

(** A Python [str] is a sequence of code points; [bytes] is a sequence of
    octets.  Both are lists of integers. *)
Definition pystr := list Z.
Definition pybytes := list Z.

(** A string literal of the source, character by character. *)
Definition lit (s : string) : pystr :=
  (λ a, Z.of_N (Ascii.N_of_ascii a)) <$> String.list_ascii_of_string s.

(** The empty string. *)
Definition blank : pystr := [].

(** [str(n)] for a non-negative [int]. *)
Definition str_int (n : nat) : pystr :=
  lit (NilZero.string_of_uint (Nat.to_uint n)).

(** Truth value of a [str]: the empty string is false. *)
Definition truthy (s : pystr) : bool :=
  match s with [] => false | _ => true end.

(** [a or b] where [a] is a string or [None] and [b] a string. *)
Definition or_else (a : option pystr) (b : pystr) : pystr :=
  match a with
  | Some a' => if truthy a' then a' else b
  | None => b
  end.

(** [sep.join(parts)]. *)
Fixpoint join (sep : pystr) (parts : list pystr) : pystr :=
  match parts with
  | [] => []
  | [p] => p
  | p :: rest => p ++ sep ++ join sep rest
  end.

(** [s.startswith(prefix)]. *)
Fixpoint startswith (s prefix : pystr) : bool :=
  match prefix, s with
  | [], _ => true
  | _ :: _, [] => false
  | p :: prefix', c :: s' => (c =? p) && startswith s' prefix'
  end.

(** [needle in s] on strings: [needle] occurs as a contiguous run. *)
Fixpoint contains (s needle : pystr) : bool :=
  startswith s needle ||
  match s with
  | [] => false
  | _ :: s' => contains s' needle
  end.

(** [s.lower()] on the ASCII letters.  The source only compares the result
    with the literal [".pdf"], and no character outside ASCII lowers to one
    of the characters of that literal. *)
Definition lower_char (c : Z) : Z :=
  if (65 <=? c) && (c <=? 90) then c + 32 else c.
Definition lower (s : pystr) : pystr := lower_char <$> s.

(** ** Exceptions *)

(** The exceptions the module raises itself, the codec error of
    [str.encode], and whatever a library call raises.  A library exception
    is known by whether it is an instance of [Exception] (what an
    [except Exception] clause catches) and by its [str()]. *)
Inductive exception :=
  | RuntimeError (msg : pystr)
  | FileNotFoundError (msg : pystr)
  | UnicodeEncodeError (object : pystr) (start stop : nat)
  | LibraryError (is_Exception : bool) (msg : pystr).

Inductive result (A : Type) :=
  | Ok (a : A)
  | Raise (e : exception).
Arguments Ok {A} a.
Arguments Raise {A} e.

(** [isinstance(exc, Exception)]. *)
Definition isinstance_Exception (e : exception) : bool :=
  match e with
  | LibraryError b _ => b
  | _ => true
  end.

Definition hex_digit (d : Z) : Z :=
  if d <? 10 then 48 + d else 87 + d.

(** [width] lower-case hexadecimal digits of [n], most significant first. *)
Fixpoint hex (width : nat) (n : Z) : pystr :=
  match width with
  | O => []
  | S w => hex w (n / 16) ++ [hex_digit (n mod 16)]
  end.

(** [str(exc)].  For the codec error this is the text CPython builds from
    the offending range. *)
Definition str_exc (e : exception) : pystr :=
  match e with
  | RuntimeError msg => msg
  | FileNotFoundError msg => msg
  | LibraryError _ msg => msg
  | UnicodeEncodeError object start stop =>
      match object !! start with
      | Some badchar =>
          if bool_decide (stop = S start) then
            lit "'utf-8' codec can't encode character '\"
            ++ (if badchar <=? 255 then lit "x" ++ hex 2 badchar
                else if badchar <=? 65535 then lit "u" ++ hex 4 badchar
                else lit "U" ++ hex 8 badchar)
            ++ lit "' in position " ++ str_int start
            ++ lit ": surrogates not allowed"
          else
            lit "'utf-8' codec can't encode characters in position "
            ++ str_int start ++ lit "-" ++ str_int (Nat.pred stop)
            ++ lit ": surrogates not allowed"
      | None =>
          lit "'utf-8' codec can't encode characters in position "
          ++ str_int start ++ lit "-" ++ str_int (Nat.pred stop)
          ++ lit ": surrogates not allowed"
      end
  end.

(** ** The UTF-8 codec *)

Module Utf8.

Definition is_surrogate (c : Z) : bool := (0xD800 <=? c) && (c <=? 0xDFFF).

(** The octets of one code point. *)
Definition encode_char (c : Z) : pybytes :=
  if c <? 0x80 then [c]
  else if c <? 0x800 then [0xC0 + c / 64; 0x80 + c mod 64]
  else if c <? 0x10000 then
    [0xE0 + c / 4096; 0x80 + (c / 64) mod 64; 0x80 + c mod 64]
  else
    [0xF0 + c / 262144; 0x80 + (c / 4096) mod 64;
     0x80 + (c / 64) mod 64; 0x80 + c mod 64].

(** Length of the run of surrogates at the head of [s]. *)
Fixpoint surrogate_run (s : pystr) : nat :=
  match s with
  | c :: r => if is_surrogate c then S (surrogate_run r) else O
  | [] => O
  end.

(** [object.encode("utf-8")] with the default strict error handling: a
    lone surrogate raises, reporting the run of surrogates it starts. *)
Fixpoint encode_from (object : pystr) (pos : nat) (s : pystr)
  : result pybytes :=
  match s with
  | [] => Ok []
  | c :: r =>
      if is_surrogate c then
        Raise (UnicodeEncodeError object pos (pos + surrogate_run s)%nat)
      else
        match encode_from object (S pos) r with
        | Ok bs => Ok (encode_char c ++ bs)
        | Raise e => Raise e
        end
  end.

Definition encode (s : pystr) : result pybytes := encode_from s O s.

(** What the decoder finds at a position: a code point, or an ill-formed
    run of [n] octets that is handed to the error handler. *)
Inductive item :=
  | Char (c : Z)
  | Malformed (n : nat).

Definition is_cont (b : Z) : bool := (0x80 <=? b) && (b <=? 0xBF).

(** Second octet of a three-octet form: a continuation octet that gives
    neither an overlong form nor a surrogate. *)
Definition second_ok3 (b0 b1 : Z) : bool :=
  is_cont b1 && negb ((b0 =? 0xE0) && (b1 <? 0xA0))
             && negb ((b0 =? 0xED) && (0xA0 <=? b1)).

(** Second octet of a four-octet form: in range for the planes 1 to 16. *)
Definition second_ok4 (b0 b1 : Z) : bool :=
  is_cont b1 && negb ((b0 =? 0xF0) && (b1 <? 0x90))
             && negb ((b0 =? 0xF4) && (0x90 <=? b1)).

(** One pass over the octets, as CPython's decoder makes it: an invalid
    start octet is an ill-formed run of one, an invalid continuation
    octet ends the run before it, and input that stops inside a sequence
    makes the remaining octets one run. *)
Fixpoint scan (bs : pybytes) : list item :=
  match bs with
  | [] => []
  | b0 :: r0 =>
      if b0 <? 0x80 then Char b0 :: scan r0
      else if b0 <? 0xC2 then Malformed 1 :: scan r0
      else if b0 <? 0xE0 then
        match r0 with
        | [] => [Malformed 1]
        | b1 :: r1 =>
            if is_cont b1
            then Char ((b0 mod 32) * 64 + b1 mod 64) :: scan r1
            else Malformed 1 :: scan r0
        end
      else if b0 <? 0xF0 then
        match r0 with
        | [] => [Malformed 1]
        | b1 :: r1 =>
            if second_ok3 b0 b1 then
              match r1 with
              | [] => [Malformed 2]
              | b2 :: r2 =>
                  if is_cont b2
                  then Char ((b0 mod 16) * 4096 + (b1 mod 64) * 64
                             + b2 mod 64) :: scan r2
                  else Malformed 2 :: scan r1
              end
            else Malformed 1 :: scan r0
        end
      else if b0 <? 0xF5 then
        match r0 with
        | [] => [Malformed 1]
        | b1 :: r1 =>
            if second_ok4 b0 b1 then
              match r1 with
              | [] => [Malformed 2]
              | b2 :: r2 =>
                  if is_cont b2 then
                    match r2 with
                    | [] => [Malformed 3]
                    | b3 :: r3 =>
                        if is_cont b3
                        then Char ((b0 mod 8) * 262144 + (b1 mod 64) * 4096
                                   + (b2 mod 64) * 64 + b3 mod 64)
                             :: scan r3
                        else Malformed 3 :: scan r2
                    end
                  else Malformed 2 :: scan r1
              end
            else Malformed 1 :: scan r0
        end
      else Malformed 1 :: scan r0
  end.

(** [bs.decode("utf-8", errors="ignore")]: the handler contributes
    nothing for an ill-formed run. *)
Definition decode_ignore (bs : pybytes) : pystr :=
  omap (λ i, match i with Char c => Some c | Malformed _ => None end)
       (scan bs).

(** [bs.decode("utf-8", errors="replace")]: the handler contributes
    U+FFFD for each ill-formed run. *)
Definition decode_replace (bs : pybytes) : pystr :=
  (λ i, match i with Char c => c | Malformed _ => 0xFFFD end) <$> scan bs.

(** The number of ill-formed runs the error handler was given. *)
Definition ill_formed_runs (bs : pybytes) : nat :=
  sum_list ((λ i, match i with Char _ => O | Malformed _ => 1%nat end)
            <$> scan bs).

(** A Unicode scalar value: a code point that is not a surrogate. *)
Definition scalar (c : Z) : Prop :=
  0 ≤ c ≤ 0x10FFFF ∧ ¬ (0xD800 ≤ c ≤ 0xDFFF).

(** An octet that starts no sequence: a continuation octet, one of the
    two octets of overlong two-octet forms, or one beyond [0xF4]. *)
Definition stray (b : Z) : Prop := 0x80 ≤ b < 0xC2 ∨ 0xF5 ≤ b.

(** The octets of a string with no surrogate. *)
Definition encode_chars (s : pystr) : pybytes := s ≫= encode_char.

End Utf8.

(** Newline translation of a file opened in text mode with the default
    [newline=None]: ["\r\n"] and a lone ["\r"] are read as ["\n"]. *)
Fixpoint universal_newlines (s : pystr) : pystr :=
  match s with
  | [] => []
  | c :: r =>
      if c =? 13 then
        10 :: match r with
              | [] => []
              | c' :: r' =>
                  if c' =? 10 then universal_newlines r'
                  else universal_newlines r
              end
      else c :: universal_newlines r
  end.

(** ** Data model *)

(** The dataclass [DocumentRecord].  [created_at] is the reading of
    [time.time] when the record is built. *)
Record DocumentRecord := mkDocumentRecord {
  document_id : pystr;
  collection_id : pystr;
  storage_uri : pystr;
  title : pystr;
  status : pystr;
  note : option pystr;
  created_at : Z;
}.

(** The generated [__init__]: [status] defaults to ["queued"] when the
    keyword is not given, [note] to [None], [created_at] to the clock. *)
Definition DocumentRecord_init (document_id collection_id storage_uri
    title : pystr) (status : option pystr) (now : Z) : DocumentRecord :=
  {| document_id := document_id;
     collection_id := collection_id;
     storage_uri := storage_uri;
     title := title;
     status := default (lit "queued") status;
     note := None;
     created_at := now |}.

(** [record.status = v] and [record.note = v]. *)
Definition set_status (v : pystr) (r : DocumentRecord) : DocumentRecord :=
  {| document_id := document_id r;
     collection_id := collection_id r;
     storage_uri := storage_uri r;
     title := title r;
     status := v;
     note := note r;
     created_at := created_at r |}.

Definition set_note (v : option pystr) (r : DocumentRecord) : DocumentRecord :=
  {| document_id := document_id r;
     collection_id := collection_id r;
     storage_uri := storage_uri r;
     title := title r;
     status := status r;
     note := v;
     created_at := created_at r |}.

(** A number of the libraries: a component of an embedding, a score.  The
    module hands them on and computes with none of them, so they are
    carried as integers. *)
Definition number : Type := Z.

(** An embedding is a list of numbers. *)
Definition embedding := list number.

(** One entry of the list handed to [index.upsert]. *)
Record Vector := mkVector {
  vec_id : pystr;
  vec_values : embedding;
  vec_metadata : gmap pystr pystr;
}.

(** One call [index.upsert(vectors=..., namespace=...)] on the index
    opened by [pc.Index(name)]. *)
Record UpsertCall := mkUpsertCall {
  call_index : pystr;
  call_vectors : list Vector;
  call_namespace : pystr;
}.

(** The client objects.  Each is truthy, as any object without [__bool__]
    or [__len__]. *)
Record Pinecone := mkPinecone { pinecone_api_key : pystr }.
Record OpenAIEmbeddings := mkOpenAIEmbeddings {
  embeddings_model : pystr;
  embeddings_api_key : pystr;
}.
Record Chain := mkChain { chain_model : pystr }.

(** A match of [index.query].  Reading [m.metadata] may raise (a match
    that is a plain dict has no such attribute); [match_score] is [None]
    when the match has no attribute [score], and otherwise the outcome of
    [float(m.score)]. *)
Record Match := mkMatch {
  match_metadata : result (option (gmap pystr pystr));
  match_score : option (result number);
}.

(** The response of [index.query]: an object with an attribute [matches],
    or a mapping that may have the key ["matches"]. *)
Inductive QueryResponse :=
  | ResponseObject (matches : list Match)
  | ResponseMapping (matches : option (list Match)).

(** The [score] entry of a source: [float(m.score)], or the metadata's
    ["score"], or the default [0]. *)
Inductive score_value :=
  | ScoreFloat (x : number)
  | ScoreMetadata (v : pystr)
  | ScoreDefault.

Record Source := mkSource {
  source_collection_id : pystr;
  source_document_id : pystr;
  source_chunk_id : pystr;
  source_score : score_value;
}.

(** ** The libraries, as oracles *)

Record World := mkWorld {
  (** the process environment, [os.getenv] *)
  environ : gmap pystr pystr;
  (** [time.time()] *)
  time_time : Z;
  (** [Path(path).exists()] and [Path(path).suffix] *)
  Path_exists : pystr → bool;
  Path_suffix : pystr → pystr;
  (** the octets [open(p, "r", ...)] and [f.read()] get from the file *)
  open_read : pystr → result pybytes;
  (** [PdfReader(p).pages], each page with the outcome of its
      [extract_text()] *)
  PdfReader : pystr → result (list (result (option pystr)));
  (** [RecursiveCharacterTextSplitter(chunk_size, chunk_overlap).split_text] *)
  split_text : Z → Z → pystr → result (list pystr);
  (** [OpenAIEmbeddings(model=..., api_key=...)] and [embed_query] *)
  OpenAIEmbeddings_init : pystr → pystr → result unit;
  embed_query : OpenAIEmbeddings → pystr → result embedding;
  (** [Pinecone(api_key=...)], [pc.Index(name)], [index.upsert], [index.query] *)
  Pinecone_init : pystr → result unit;
  Index_init : Pinecone → pystr → result unit;
  index_upsert : UpsertCall → result unit;
  index_query : pystr → embedding → Z → pystr → result QueryResponse;
  (** building the chain of [get_langchain_chain], and [chain.astream]:
      the fragments it yields, and the exception that ends it if any *)
  chain_init : pystr → result unit;
  chain_astream : Chain → pystr → pystr → list pystr * option exception;
}.

(** ** Process state *)

(** The module globals [DOCUMENTS] and [pc_client], the cache of
    [get_langchain_chain], and the calls the vector index has received. *)
Record State := mkState {
  DOCUMENTS : gmap pystr DocumentRecord;
  pc_client : option Pinecone;
  chain_cache : option Chain;
  index_calls : list UpsertCall;
}.

Definition initial_state : State :=
  {| DOCUMENTS := ∅; pc_client := None; chain_cache := None;
     index_calls := [] |}.

Definition with_DOCUMENTS (f : gmap pystr DocumentRecord → gmap pystr DocumentRecord)
    (s : State) : State :=
  {| DOCUMENTS := f (DOCUMENTS s); pc_client := pc_client s;
     chain_cache := chain_cache s; index_calls := index_calls s |}.

Definition with_pc_client (pc : option Pinecone) (s : State) : State :=
  {| DOCUMENTS := DOCUMENTS s; pc_client := pc;
     chain_cache := chain_cache s; index_calls := index_calls s |}.

Definition with_chain_cache (c : option Chain) (s : State) : State :=
  {| DOCUMENTS := DOCUMENTS s; pc_client := pc_client s;
     chain_cache := c; index_calls := index_calls s |}.

Definition with_index_call (c : UpsertCall) (s : State) : State :=
  {| DOCUMENTS := DOCUMENTS s; pc_client := pc_client s;
     chain_cache := chain_cache s; index_calls := index_calls s ++ [c] |}.

(** ** A state and exception monad *)

(** A computation runs on the state and returns or raises; what it did to
    the state before raising stays done. *)
Definition M (A : Type) : Type := State → result A * State.

Definition ret {A} (a : A) : M A := λ s, (Ok a, s).
Definition raise {A} (e : exception) : M A := λ s, (Raise e, s).
Definition bind {A B} (m : M A) (k : A → M B) : M B :=
  λ s, match m s with
       | (Ok a, s') => k a s'
       | (Raise e, s') => (Raise e, s')
       end.
Definition call {A} (r : result A) : M A := λ s, (r, s).
Definition get : M State := λ s, (Ok s, s).
Definition modify (f : State → State) : M unit := λ s, (Ok tt, f s).

(** [try: body except Exception as exc: handler(exc)]. *)
Definition try_except {A} (body : M A) (handler : exception → M A) : M A :=
  λ s, match body s with
       | (Ok a, s') => (Ok a, s')
       | (Raise e, s') =>
           if isinstance_Exception e then handler e s' else (Raise e, s')
       end.

(** Sequencing of calls that return or raise without touching the state. *)
Definition and_then {A B} (r : result A) (k : A → result B) : result B :=
  match r with
  | Ok a => k a
  | Raise e => Raise e
  end.

Declare Scope py_scope.
Delimit Scope py_scope with py.
Notation "'let?' x := r 'in' k" := (and_then r (λ x, k))
  (at level 10, x name, r at level 100, k at level 200) : py_scope.
Notation "'let!' x := m 'in' k" := (bind m (λ x, k))
  (at level 10, x name, m at level 100, k at level 200) : py_scope.
Notation "m ;;; k" := (bind m (λ _, k))
  (at level 100, k at level 200, right associativity) : py_scope.
Open Scope py_scope.

(** ** The module *)

(** The body of a request, parsed: a JSON object whose members are
    strings, the type the annotations of [DocumentRecord] give them.
    [key in payload] and [payload.get(key)] are the map lookup. *)
Definition Payload := gmap pystr pystr.

(** A task on a request's [BackgroundTasks]. *)
Inductive Task :=
  | Task_process_ingestion (document_id : pystr).

(** What a handler or a middleware does: it returns, or it raises
    [HTTPException].  The exception is a raise, not yet an answer: what
    the client gets for it depends on where it was raised. *)
Inductive http (A : Type) :=
  | Return (a : A)
  | HTTPException (status_code : Z) (detail : pystr).
Arguments Return {A} a.
Arguments HTTPException {A} status_code detail.

(** A request as the middleware sees it.  [scope_path] is the path of the
    ASGI scope, on which the router picks the handler.  [url_path] is
    [request.url.path]: the framework builds [request.url] from the [Host]
    header followed by the path of the scope and splits it again, so the
    two agree for an ordinary [Host] header and need not for a crafted
    one. *)
Record Request := mkRequest {
  scope_path : pystr;
  url_path : pystr;
  headers : gmap pystr pystr;
}.

(** What the client gets for a request that went through a function
    registered with [@app.middleware("http")].  Such a function runs
    outside the exception handlers of the application, so an
    [HTTPException] it raises is handled by none of them: the server
    answers with the status 500, whatever status the exception carries. *)
Inductive served (R : Type) :=
  | Response (r : R)
  | ServerError (status_code : Z).
Arguments Response {R} r.
Arguments ServerError {R} status_code.

Definition serve_middleware {R} (outcome : http R) : served R :=
  match outcome with
  | Return r => Response r
  | HTTPException _ _ => ServerError 500
  end.

(** What an asynchronous generator does between two of its steps: it
    yields octets, or it sleeps; [asyncio.sleep(0.12)] is [Sleep 120]. *)
Inductive event :=
  | Yield (data : pybytes)
  | Sleep (milliseconds : Z).

(** A generator run to its end: the events in order, and how it stopped. *)
Definition Stream : Type := list event * result unit.

Section Module.

Variable w : World.

Definition get_env (key fallback : pystr) : pystr :=
  default fallback (environ w !! key).

Definition SERVICE_TOKEN : pystr := get_env (lit "SERVICE_TOKEN") blank.
Definition OPENAI_MODEL : pystr :=
  get_env (lit "OPENAI_CHAT_MODEL") (lit "gpt-4.1-mini").
Definition VECTOR_INDEX : pystr :=
  get_env (lit "PINECONE_INDEX_NAME") (lit "kb-index").
Definition OPENAI_API_KEY : pystr :=
  default blank (environ w !! lit "OPENAI_API_KEY").
Definition OPENAI_EMBED_MODEL : pystr :=
  get_env (lit "OPENAI_EMBED_MODEL") (lit "text-embedding-3-small").

Definition get_pinecone : M (option Pinecone) :=
  let! s := get in
  match pc_client s with
  | Some pc => ret (Some pc)
  | None =>
      match environ w !! lit "PINECONE_API_KEY" with
      | None => ret None
      | Some api_key =>
          if negb (truthy api_key) then ret None
          else
            call (Pinecone_init w api_key) ;;;
            modify (with_pc_client (Some (mkPinecone api_key))) ;;;
            ret (Some (mkPinecone api_key))
      end
  end.

Definition health : gmap pystr pystr :=
  list_to_map [ (lit "status", lit "ok");
                (lit "vector_index", VECTOR_INDEX);
                (lit "model", OPENAI_MODEL) ].

(** The middleware.  [call_next] stands for the rest of the application,
    which answers every request it is given. *)
Definition verify_service_token {R} (request : Request)
    (call_next : Request → R) : http R :=
  if startswith (url_path request) (lit "/internal/") && truthy SERVICE_TOKEN
  then
    let token := headers request !! lit "x-service-token" in
    if bool_decide (token ≠ Some SERVICE_TOKEN)
    then HTTPException 401 (lit "unauthorized")
    else Return (call_next request)
  else Return (call_next request).

(** [page.extract_text() or ""] for each page in order; the first page
    whose extraction raises ends the generator expression. *)
Fixpoint page_texts (pages : list (result (option pystr)))
  : result (list pystr) :=
  match pages with
  | [] => Ok []
  | page :: rest =>
      let? t := page in
      let? ts := page_texts rest in
      Ok (or_else t blank :: ts)
  end.

Definition extract_text (path : pystr) : result pystr :=
  if negb (Path_exists w path) then
    Raise (FileNotFoundError (lit "file not found: " ++ path))
  else if bool_decide (lower (Path_suffix w path) = lit ".pdf") then
    let? pages := PdfReader w path in
    let? texts := page_texts pages in
    Ok (join [10] texts)
  else
    let? bs := open_read w path in
    Ok (universal_newlines (Utf8.decode_ignore bs)).

(** The loop of [upsert_to_pinecone]: [i] is the index [enumerate] has
    reached and [vectors] the list built so far. *)
Fixpoint upsert_loop (embeddings : OpenAIEmbeddings)
    (collection_id doc_id : pystr) (i : nat) (vectors : list Vector)
    (chunks : list pystr) : result (list Vector) :=
  match chunks with
  | [] => Ok vectors
  | chunk :: rest =>
      let? embedding := embed_query w embeddings chunk in
      upsert_loop embeddings collection_id doc_id (S i)
        (vectors ++
         [ {| vec_id := doc_id ++ lit "-chunk-" ++ str_int i;
              vec_values := embedding;
              vec_metadata :=
                list_to_map
                  [ (lit "collection_id", collection_id);
                    (lit "document_id", doc_id);
                    (lit "chunk_id", lit "chunk-" ++ str_int i);
                    (lit "text", chunk) ] |} ])
        rest
  end.

Definition upsert_to_pinecone (pc : Pinecone) (chunks : list pystr)
    (collection_id doc_id : pystr) (embeddings : OpenAIEmbeddings)
  : M unit :=
  call (Index_init w pc VECTOR_INDEX) ;;;
  let! vectors :=
    call (upsert_loop embeddings collection_id doc_id O [] chunks) in
  let c := {| call_index := VECTOR_INDEX; call_vectors := vectors;
              call_namespace := collection_id |} in
  modify (with_index_call c) ;;;
  call (index_upsert w c).

(** The [try] block of [process_ingestion]. *)
Definition ingestion_steps (key : pystr) (record : DocumentRecord)
  : M unit :=
  let! text := call (extract_text (storage_uri record)) in
  let! chunks := call (split_text w 800 120 text) in
  match chunks with
  | [] => raise (RuntimeError (lit "no text extracted"))
  | _ :: _ =>
      let! embeddings :=
        (if truthy OPENAI_API_KEY then
           call (OpenAIEmbeddings_init w OPENAI_EMBED_MODEL OPENAI_API_KEY) ;;;
           ret (Some (mkOpenAIEmbeddings OPENAI_EMBED_MODEL OPENAI_API_KEY))
         else ret None) in
      let! pc := get_pinecone in
      match embeddings, pc with
      | Some embeddings, Some pc =>
          upsert_to_pinecone pc chunks (collection_id record)
            (document_id record) embeddings ;;;
          modify (with_DOCUMENTS (alter (set_status (lit "ready")) key)) ;;;
          modify (with_DOCUMENTS (alter (set_note (Some
            (lit "Upserted " ++ str_int (length chunks)
             ++ lit " chunks to Pinecone."))) key))
      | _, _ =>
          raise (RuntimeError
            (lit "missing OPENAI_API_KEY or PINECONE_API_KEY for ingestion"))
      end
  end.

(** The coroutine has no [await]: once started it runs to its end, so
    the object bound to [record] stays the value of
    [DOCUMENTS[document_id]] while it is mutated. *)
Definition process_ingestion (document_id : pystr) : M unit :=
  let! s := get in
  match DOCUMENTS s !! document_id with
  | None => ret tt
  | Some record =>
      try_except (ingestion_steps document_id record)
        (λ exc,
           modify (with_DOCUMENTS (alter (set_status (lit "error")) document_id)) ;;;
           modify (with_DOCUMENTS (alter (set_note (Some (str_exc exc))) document_id)))
  end.

(** The loop of [retrieve_context] over the matches. *)
Fixpoint context_loop (collection_id : pystr) (contexts : list pystr)
    (sources : list Source) (matches : list Match)
  : result (list pystr * list Source) :=
  match matches with
  | [] => Ok (contexts, sources)
  | m :: rest =>
      let? metadata := match_metadata m in
      let md : gmap pystr pystr := default ∅ metadata in
      let text := default blank (md !! lit "text") in
      let? score :=
        match match_score m with
        | Some x => let? x' := x in Ok (ScoreFloat x')
        | None =>
            Ok (match md !! lit "score" with
                | Some v => ScoreMetadata v
                | None => ScoreDefault
                end)
        end in
      context_loop collection_id (contexts ++ [text])
        (sources ++
         [ {| source_collection_id :=
                default collection_id (md !! lit "collection_id");
              source_document_id := default blank (md !! lit "document_id");
              source_chunk_id := default blank (md !! lit "chunk_id");
              source_score := score |} ])
        rest
  end.

Definition retrieve_context (query collection_id : pystr)
  : M (pystr * list Source) :=
  let! pc := get_pinecone in
  match pc with
  | Some pc =>
      if negb (truthy OPENAI_API_KEY) then
        raise (RuntimeError (lit "vector or embedding client missing"))
      else
        call (Index_init w pc VECTOR_INDEX) ;;;
        call (OpenAIEmbeddings_init w OPENAI_EMBED_MODEL OPENAI_API_KEY) ;;;
        let embedder := mkOpenAIEmbeddings OPENAI_EMBED_MODEL OPENAI_API_KEY in
        let! q_emb := call (embed_query w embedder query) in
        let! res := call (index_query w VECTOR_INDEX q_emb 5 collection_id) in
        let! matches :=
          match res with
          | ResponseObject matches => ret matches
          | ResponseMapping (Some matches) => ret matches
          | ResponseMapping None =>
              (* [res["matches"]] is a [KeyError] *)
              raise (LibraryError true (lit "'matches'"))
          end in
        let! found := call (context_loop collection_id [] [] matches) in
        ret (join [10; 10] found.1, found.2)
  | None => raise (RuntimeError (lit "vector or embedding client missing"))
  end.

(** [get_langchain_chain] under [lru_cache]: the chain is built on the
    first call that returns, and that object is returned from then on. *)
Definition get_langchain_chain : M Chain :=
  let! s := get in
  match chain_cache s with
  | Some chain => ret chain
  | None =>
      call (chain_init w OPENAI_MODEL) ;;;
      modify (with_chain_cache (Some (mkChain OPENAI_MODEL))) ;;;
      ret (mkChain OPENAI_MODEL)
  end.

(** The [async for] of [token_stream]: each fragment of the chain is
    encoded and yielded with a newline; [stop] is the exception that
    ends the iteration, if any. *)
Fixpoint stream_chunks (chunks : list pystr) (stop : option exception)
  : Stream :=
  match chunks with
  | [] => ([], match stop with Some e => Raise e | None => Ok tt end)
  | chunk :: rest =>
      match Utf8.encode chunk with
      | Raise e => ([], Raise e)
      | Ok data =>
          let '(events, r) := stream_chunks rest stop in
          (Yield (data ++ [10]) :: events, r)
      end
  end.

Definition synthetic (prompt : pystr) : list pystr :=
  [ lit "Synthesizing an AuroraMind reply. ";
    lit "This stubbed AI service will echo your prompt back. ";
    lit "Prompt: " ++ [34] ++ prompt ++ [34] ++ lit ". ";
    lit "Connect Pinecone and OpenAI to replace this path." ].

(** The [for] of the handler: [asyncio.sleep(0.12)], then the piece. *)
Fixpoint play (pieces : list pystr) : Stream :=
  match pieces with
  | [] => ([], Ok tt)
  | piece :: rest =>
      match Utf8.encode piece with
      | Raise e => ([Sleep 120], Raise e)
      | Ok data =>
          let '(events, r) := play rest in
          (Sleep 120 :: Yield (data ++ [10]) :: events, r)
      end
  end.

(** The [try] block of [token_stream], run to its end. *)
Definition answer (prompt kb_id : pystr) : State → Stream * State :=
  λ s,
  match (let! found :=
           retrieve_context prompt
             (or_else (Some kb_id) (lit "kb-default")) in
         let! chain := get_langchain_chain in
         ret (chain, found.1)) s with
  | (Raise e, s') => (([], Raise e), s')
  | (Ok (chain, context), s') =>
      let '(chunks, stop) := chain_astream w chain prompt context in
      (stream_chunks chunks stop, s')
  end.

Definition token_stream (prompt kb_id : pystr) : State → Stream * State :=
  λ s,
  match answer prompt kb_id s with
  | ((events, Ok tt), s') => ((events, Ok tt), s')
  | ((events, Raise exc), s') =>
      if isinstance_Exception exc then
        let '(events', r) := play (synthetic prompt) in
        ((events ++ events', r), s')
      else ((events, Raise exc), s')
  end.

(** The handler answers with the generator; the server runs it after. *)
Definition rag_stream (payload : Payload)
  : http (State → Stream * State) :=
  let prompt := payload !! lit "prompt" in
  let session_id := default blank (payload !! lit "session_id") in
  let kb_id := default blank (payload !! lit "kb_id") in
  match prompt with
  | Some prompt =>
      if negb (truthy prompt)
      then HTTPException 400 (lit "prompt is required")
      else Return (token_stream prompt kb_id)
  | None => HTTPException 400 (lit "prompt is required")
  end.

Definition ingest (payload : Payload) (tasks : list Task)
  : State → http (gmap pystr pystr) * list Task * State :=
  λ s,
  let required :=
    [lit "document_id"; lit "collection_id"; lit "storage_uri"] in
  if existsb (λ field, bool_decide (payload !! field = None)) required then
    (HTTPException 400 (lit "missing required fields"), tasks, s)
  else
    let record :=
      DocumentRecord_init
        (payload !!! lit "document_id")
        (payload !!! lit "collection_id")
        (payload !!! lit "storage_uri")
        (or_else (payload !! lit "title") (lit "Untitled"))
        (Some (lit "processing"))
        (time_time w) in
    (Return (list_to_map [ (lit "status", lit "accepted");
                           (lit "document_id", document_id record) ]),
     tasks ++ [Task_process_ingestion (document_id record)],
     with_DOCUMENTS (insert (document_id record) record) s).

End Module.

(** ** The running service *)

(** The service between two steps of the event loop: the process state and
    the background tasks that were scheduled and have not run yet. *)
Record Service := mkService {
  state : State;
  pending : list Task;
}.

Definition boot : Service := {| state := initial_state; pending := [] |}.

Definition run_task (w : World) (t : Task) : M unit :=
  match t with
  | Task_process_ingestion document_id => process_ingestion w document_id
  end.

(** One step: an ingest request is handled, a scheduled task runs, or the
    generator of a query is run.  The libraries may answer differently at
    every step. *)
Inductive step : Service → Service → Prop :=
  | step_ingest w payload sv response tasks s' :
      ingest w payload [] (state sv) = (response, tasks, s') →
      step sv {| state := s'; pending := pending sv ++ tasks |}
  | step_task w t before after sv r s' :
      pending sv = before ++ t :: after →
      run_task w t (state sv) = (r, s') →
      step sv {| state := s'; pending := before ++ after |}
  | step_query w prompt kb_id sv out s' :
      token_stream w prompt kb_id (state sv) = (out, s') →
      step sv {| state := s'; pending := pending sv |}.

Definition reachable (sv : Service) : Prop := rtc step boot sv.

(** ** Vocabulary of the properties *)

(** Assigning [status] and then [note] on the record stored at [k]. *)
Definition mark (k st nt : pystr) (s : State) : State :=
  with_DOCUMENTS (alter (set_note (Some nt)) k)
    (with_DOCUMENTS (alter (set_status st) k) s).

(** The text was extracted and cut into at least one chunk. *)
Definition chunked (w : World) (record : DocumentRecord)
    (chunks : list pystr) : Prop :=
  ∃ text, extract_text w (storage_uri record) = Ok text
          ∧ split_text w 800 120 text = Ok chunks
          ∧ chunks ≠ [].

(** The embedder a run builds when the key is set, and what it takes for
    it to be built. *)
Definition embedder_of (w : World) : OpenAIEmbeddings :=
  mkOpenAIEmbeddings (OPENAI_EMBED_MODEL w) (OPENAI_API_KEY w).

Definition embedder_built (w : World) : Prop :=
  truthy (OPENAI_API_KEY w) = true
  ∧ OpenAIEmbeddings_init w (OPENAI_EMBED_MODEL w) (OPENAI_API_KEY w) = Ok tt.

(** [stage_raises w s record e s1]: run from the state [s] for [record],
    some stage raises [e], the state being [s1] by then.  The stages are
    extraction, chunking with its check for no chunks, the construction of
    the embedder and of the index client with the check that both are
    there, and the upsert. *)
Inductive stage_raises (w : World) (s : State) (record : DocumentRecord)
  : exception → State → Prop :=
  | raises_extraction e :
      extract_text w (storage_uri record) = Raise e →
      stage_raises w s record e s
  | raises_chunking text e :
      extract_text w (storage_uri record) = Ok text →
      split_text w 800 120 text = Raise e →
      stage_raises w s record e s
  | raises_no_chunks text :
      extract_text w (storage_uri record) = Ok text →
      split_text w 800 120 text = Ok [] →
      stage_raises w s record (RuntimeError (lit "no text extracted")) s
  | raises_embedder chunks e :
      chunked w record chunks →
      truthy (OPENAI_API_KEY w) = true →
      OpenAIEmbeddings_init w (OPENAI_EMBED_MODEL w) (OPENAI_API_KEY w) = Raise e →
      stage_raises w s record e s
  | raises_client chunks e s1 :
      chunked w record chunks →
      truthy (OPENAI_API_KEY w) = false ∨ embedder_built w →
      get_pinecone w s = (Raise e, s1) →
      stage_raises w s record e s1
  | raises_credentials chunks pc s1 :
      chunked w record chunks →
      truthy (OPENAI_API_KEY w) = false ∨ embedder_built w →
      get_pinecone w s = (Ok pc, s1) →
      truthy (OPENAI_API_KEY w) = false ∨ pc = None →
      stage_raises w s record
        (RuntimeError
           (lit "missing OPENAI_API_KEY or PINECONE_API_KEY for ingestion")) s1
  | raises_upsert chunks pc s1 e s2 :
      chunked w record chunks →
      embedder_built w →
      get_pinecone w s = (Ok (Some pc), s1) →
      upsert_to_pinecone w pc chunks (collection_id record)
        (document_id record) (embedder_of w) s1 = (Raise e, s2) →
      stage_raises w s record e s2.

(** Every stage returns; [s2] is the state after the upsert. *)
Definition all_stages_succeed (w : World) (s : State)
    (record : DocumentRecord) (chunks : list pystr) (s2 : State) : Prop :=
  chunked w record chunks ∧ embedder_built w
  ∧ ∃ pc s1, get_pinecone w s = (Ok (Some pc), s1)
             ∧ upsert_to_pinecone w pc chunks (collection_id record)
                 (document_id record) (embedder_of w) s1 = (Ok tt, s2).

(** The note of a finished run. *)
Definition upserted_note (n : nat) : pystr :=
  lit "Upserted " ++ str_int n ++ lit " chunks to Pinecone.".

(** The entry the loop of [upsert_to_pinecone] builds for the chunk of
    index [i]. *)
Definition vector_of (collection_id doc_id : pystr) (i : nat)
    (chunk : pystr) (values : embedding) : Vector :=
  {| vec_id := doc_id ++ lit "-chunk-" ++ str_int i;
     vec_values := values;
     vec_metadata :=
       list_to_map
         [ (lit "collection_id", collection_id);
           (lit "document_id", doc_id);
           (lit "chunk_id", lit "chunk-" ++ str_int i);
           (lit "text", chunk) ] |}.

(** The statuses a stored record can have. *)
Definition status_in_use (r : DocumentRecord) : Prop :=
  status r = lit "processing" ∨ status r = lit "ready"
  ∨ status r = lit "error".

(** [created_by w payload k r']: [r'] is the record [ingest] builds for
    [payload] and stores under [k], the [document_id] of the payload.
    Every field comes from the payload and the clock, none from a record
    stored before: the status is ["processing"] and there is no note. *)
Definition created_by (w : World) (payload : Payload) (k : pystr)
    (r' : DocumentRecord) : Prop :=
  ∃ col uri,
    payload !! lit "document_id" = Some k
    ∧ payload !! lit "collection_id" = Some col
    ∧ payload !! lit "storage_uri" = Some uri
    ∧ r' = DocumentRecord_init k col uri
             (or_else (payload !! lit "title") (lit "Untitled"))
             (Some (lit "processing")) (time_time w).

(** [finished_by doc before k r']: [r'] is what a run of
    [process_ingestion] for [doc] makes of the record stored under [k] in
    [before]: [k] is [doc], and [r'] is that record with ["ready"] or
    ["error"] assigned to its status, and a note. *)
Definition finished_by (doc : pystr) (before : State) (k : pystr)
    (r' : DocumentRecord) : Prop :=
  k = doc
  ∧ ∃ r st nt, DOCUMENTS before !! k = Some r
               ∧ (st = lit "ready" ∨ st = lit "error")
               ∧ r' = set_note (Some nt) (set_status st r).

(** The lines of a text file.  A line ends with one of three
    terminators; [terminated lines last] is the text of a file made of
    [lines], each with its terminator, and of a [last] line with none, and
    [translated lines last] is the same file with every terminator written
    ["\n"]. *)
Inductive eol := LF | CR | CRLF.

Definition eol_chars (e : eol) : pystr :=
  match e with LF => [10] | CR => [13] | CRLF => [13; 10] end.

Fixpoint terminated (lines : list (pystr * eol)) (last : pystr) : pystr :=
  match lines with
  | [] => last
  | (l, e) :: rest => l ++ eol_chars e ++ terminated rest last
  end.

Fixpoint translated (lines : list (pystr * eol)) (last : pystr) : pystr :=
  match lines with
  | [] => last
  | (l, _) :: rest => l ++ [10] ++ translated rest last
  end.

Definition no_eol (l : pystr) : Prop := Forall (λ c, c ≠ 10 ∧ c ≠ 13) l.

(** [lines] and [last] are the lines of the file: no line holds a
    terminator, and a ["\r"] counted as a terminator of its own is not the
    first half of a ["\r\n"]. *)
Fixpoint well_split (lines : list (pystr * eol)) (last : pystr) : Prop :=
  match lines with
  | [] => no_eol last
  | (l, e) :: rest =>
      no_eol l
      ∧ (e = CR → head (terminated rest last) ≠ Some 10)
      ∧ well_split rest last
  end.

(** The text [retrieve_context] reads off a match: the metadata's
    ["text"], or the empty string when the match has no metadata or the
    metadata no text. *)
Definition match_text (m : Match) : pystr :=
  match match_metadata m with
  | Ok (Some md) => default blank (md !! lit "text")
  | _ => blank
  end.

(** A stored vector as the index gives it back, with a score. *)
Definition match_of_vector (score : number) (v : Vector) : Match :=
  {| match_metadata := Ok (Some (vec_metadata v));
     match_score := Some (Ok score) |}.

(** The fragments of an answer as they go out: each one encoded and
    ended by a newline. *)
Definition yields (chunks : list pystr) : list event :=
  (λ chunk, Yield (Utf8.encode_chars chunk ++ [10])) <$> chunks.

(** The canned answer as it goes out. *)
Definition fallback_events (prompt : pystr) : list event :=
  [ Sleep 120;
    Yield (lit "Synthesizing an AuroraMind reply. " ++ [10]);
    Sleep 120;
    Yield (lit "This stubbed AI service will echo your prompt back. "
           ++ [10]);
    Sleep 120;
    Yield ((lit "Prompt: " ++ [34] ++ Utf8.encode_chars prompt ++ [34]
            ++ lit ". ") ++ [10]);
    Sleep 120;
    Yield (lit "Connect Pinecone and OpenAI to replace this path."
           ++ [10]) ].

(** ** A small world to run the module in *)

Module Demo.

(** The suffix of a path whose last component has a single dot. *)
Fixpoint suffix_from (s : pystr) : pystr :=
  match s with
  | [] => []
  | c :: r => if c =? 46 then s else suffix_from r
  end.

(** A splitter that cuts a text that is not empty in two chunks: its
    first three characters and the rest. *)
Definition two_chunks (text : pystr) : list pystr :=
  match text with [] => [] | _ => [take 3 text; drop 3 text] end.

Definition world (env : list (pystr * pystr))
    (files : list (pystr * pybytes))
    (splitter : pystr → list pystr) : World :=
  {| environ := list_to_map env;
     time_time := 1700000000;
     Path_exists := λ p, bool_decide (is_Some ((list_to_map files : gmap pystr pybytes) !! p));
     Path_suffix := suffix_from;
     open_read := λ p,
       match (list_to_map files : gmap pystr pybytes) !! p with
       | Some bs => Ok bs
       | None => Raise (FileNotFoundError (lit "[Errno 2] No such file or directory"))
       end;
     PdfReader := λ _, Ok [Ok (Some (lit "page one")); Ok None];
     split_text := λ _ _ text, Ok (splitter text);
     OpenAIEmbeddings_init := λ _ _, Ok tt;
     embed_query := λ _ text, Ok [Z.of_nat (length text)];
     Pinecone_init := λ _, Ok tt;
     Index_init := λ _ _, Ok tt;
     index_upsert := λ _, Ok tt;
     index_query := λ _ _ _ _, Ok (ResponseObject []);
     chain_init := λ _, Ok tt;
     chain_astream := λ _ _ _, ([lit "Hello"; lit " there"], None) |}.

Definition keys : list (pystr * pystr) :=
  [ (lit "OPENAI_API_KEY", lit "sk-test");
    (lit "PINECONE_API_KEY", lit "pc-test");
    (lit "SERVICE_TOKEN", lit "s3cret") ].

Definition files : list (pystr * pybytes) :=
  [ (lit "/data/a.txt", lit "hello world");
    (lit "/data/empty.txt", []);
    (lit "/data/bad.txt", [97; 255; 98]);
    (lit "/data/scan.PDF", [37; 80; 68; 70]);
    (lit "/data/dos.txt", [97; 13; 10; 98; 13; 99; 10]) ].

(** With the keys configured, and with an empty environment. *)
Definition online : World := world keys files two_chunks.
Definition offline : World := world [] files two_chunks.

Definition payload (doc col uri : string) : Payload :=
  list_to_map [ (lit "document_id", lit doc);
                (lit "collection_id", lit col);
                (lit "storage_uri", lit uri) ].

(** The state once the document ["d1"] of the collection ["kb"], stored
    at [uri], has been accepted. *)
Definition accepted (uri : string) : State :=
  (ingest online (payload "d1" "kb" uri) [] initial_state).2.

(** Its record, with a status and a note. *)
Definition record (uri : string) (st : string) (nt : option pystr)
  : DocumentRecord :=
  {| document_id := lit "d1"; collection_id := lit "kb";
     storage_uri := lit uri; title := lit "Untitled";
     status := lit st; note := nt; created_at := 1700000000 |}.

(** The state after its ingestion has run. *)
Definition ingested (w : World) (uri : string) : State :=
  (process_ingestion w (lit "d1") (accepted uri)).2.

(** The world [w] with one library behaving otherwise. *)
Definition with_split_text (f : Z → Z → pystr → result (list pystr))
    (w : World) : World :=
  {| environ := environ w; time_time := time_time w;
     Path_exists := Path_exists w; Path_suffix := Path_suffix w;
     open_read := open_read w; PdfReader := PdfReader w;
     split_text := f;
     OpenAIEmbeddings_init := OpenAIEmbeddings_init w;
     embed_query := embed_query w; Pinecone_init := Pinecone_init w;
     Index_init := Index_init w; index_upsert := index_upsert w;
     index_query := index_query w; chain_init := chain_init w;
     chain_astream := chain_astream w |}.

Definition with_embed_query (f : OpenAIEmbeddings → pystr → result embedding)
    (w : World) : World :=
  {| environ := environ w; time_time := time_time w;
     Path_exists := Path_exists w; Path_suffix := Path_suffix w;
     open_read := open_read w; PdfReader := PdfReader w;
     split_text := split_text w;
     OpenAIEmbeddings_init := OpenAIEmbeddings_init w;
     embed_query := f; Pinecone_init := Pinecone_init w;
     Index_init := Index_init w; index_upsert := index_upsert w;
     index_query := index_query w; chain_init := chain_init w;
     chain_astream := chain_astream w |}.

Definition with_index_query
    (f : pystr → embedding → Z → pystr → result QueryResponse)
    (w : World) : World :=
  {| environ := environ w; time_time := time_time w;
     Path_exists := Path_exists w; Path_suffix := Path_suffix w;
     open_read := open_read w; PdfReader := PdfReader w;
     split_text := split_text w;
     OpenAIEmbeddings_init := OpenAIEmbeddings_init w;
     embed_query := embed_query w; Pinecone_init := Pinecone_init w;
     Index_init := Index_init w; index_upsert := index_upsert w;
     index_query := f; chain_init := chain_init w;
     chain_astream := chain_astream w |}.

Definition with_chain_astream
    (f : Chain → pystr → pystr → list pystr * option exception)
    (w : World) : World :=
  {| environ := environ w; time_time := time_time w;
     Path_exists := Path_exists w; Path_suffix := Path_suffix w;
     open_read := open_read w; PdfReader := PdfReader w;
     split_text := split_text w;
     OpenAIEmbeddings_init := OpenAIEmbeddings_init w;
     embed_query := embed_query w; Pinecone_init := Pinecone_init w;
     Index_init := Index_init w; index_upsert := index_upsert w;
     index_query := index_query w; chain_init := chain_init w;
     chain_astream := f |}.

(** The state after the document ["d1"], ingested from ["/data/a.txt"],
    has been submitted again for another collection and file. *)
Definition resubmitted : State :=
  (ingest online (payload "d1" "kb2" "/data/bad.txt") []
     (ingested online "/data/a.txt")).2.

(** A request for the ingest route with no token; and one for the same
    route with a wrong token and the [Host] header ["example.com/x?"],
    for which [request.url] is ["http://example.com/x?/internal/ingest"]
    and its path ["/x"]. *)
Definition without_token : Request :=
  {| scope_path := lit "/internal/ingest";
     url_path := lit "/internal/ingest";
     headers := {[ lit "host" := lit "example.com" ]} |}.

Definition forged_host : Request :=
  {| scope_path := lit "/internal/ingest";
     url_path := lit "/x";
     headers := list_to_map [ (lit "host", lit "example.com/x?");
                              (lit "x-service-token", lit "wrong") ] |}.

(** A splitter interrupted by a [KeyboardInterrupt], an embedder that
    fails on the second chunk, and a chain that breaks after one
    fragment. *)
Definition interrupted : World :=
  with_split_text
    (λ _ _ _, Raise (LibraryError false (lit "KeyboardInterrupt"))) online.

Definition flaky_embedder : World :=
  with_embed_query
    (λ _ text, if bool_decide (text = lit "lo world")
               then Raise (LibraryError true (lit "rate limit reached"))
               else Ok [Z.of_nat (length text)]) online.

(** An index that gives back one stored vector and one match without
    metadata. *)
Definition stocked : World :=
  with_index_query
    (λ _ _ _ _,
       Ok (ResponseObject
             [ match_of_vector 9
                 (vector_of (lit "kb") (lit "d1") 0 (lit "hel") [3]);
               {| match_metadata := Ok None; match_score := None |} ]))
    online.

Definition broken_chain : World :=
  with_chain_astream
    (λ _ _ _, ([lit "Hello"],
               Some (LibraryError true (lit "connection reset")))) online.

End Demo.


(** ** Proof steps for the codec *)

Ltac euclid := Z.to_euclidean_division_equations; lia.

(** Settle the comparisons the decoder makes on given octets. *)
Ltac octets :=
  unfold Utf8.second_ok3, Utf8.second_ok4, Utf8.is_cont;
  repeat match goal with
    | |- context [?a <? ?b] =>
        first [ rewrite (proj2 (Z.ltb_lt a b)) by euclid
              | rewrite (proj2 (Z.ltb_ge a b)) by euclid ]
    | |- context [?a <=? ?b] =>
        first [ rewrite (proj2 (Z.leb_le a b)) by euclid
              | rewrite (proj2 (Z.leb_gt a b)) by euclid ]
    | |- context [?a =? ?b] =>
        first [ rewrite (proj2 (Z.eqb_eq a b)) by euclid
              | rewrite (proj2 (Z.eqb_neq a b)) by euclid ]
    end;
  cbn [andb orb negb].

(** * Properties *)

(** ** The module at work *)

Example utf8_euro_sign :
  Utf8.encode [0x20AC] = Ok [0xE2; 0x82; 0xAC]
  ∧ Utf8.decode_ignore [0xE2; 0x82; 0xAC] = [0x20AC]
  ∧ Utf8.decode_ignore [0xE2; 0x82] = []
  ∧ Utf8.decode_replace [0xE2; 0x82; 0x41] = [0xFFFD; 0x41].
Proof. repeat split; reflexivity. Qed.

Example text_mode_newlines :
  universal_newlines [97; 13; 10; 98; 13; 99; 10] = [97; 10; 98; 10; 99; 10].
Proof. reflexivity. Qed.

Example lone_surrogate_message :
  str_exc (UnicodeEncodeError [97; 0xD800] 1 2)
  = lit "'utf-8' codec can't encode character '\ud800' in position 1: surrogates not allowed".
Proof. vm_compute; reflexivity. Qed.

Example pdf_pages_joined :
  extract_text Demo.online (lit "/data/scan.PDF") = Ok (lit "page one" ++ [10]).
Proof. vm_compute; reflexivity. Qed.

Example ingested_vectors :
  index_calls (Demo.ingested Demo.online "/data/a.txt")
  = [ {| call_index := lit "kb-index";
         call_vectors :=
           [ vector_of (lit "kb") (lit "d1") 0 (lit "hel") [3];
             vector_of (lit "kb") (lit "d1") 1 (lit "lo world") [8] ];
         call_namespace := lit "kb" |} ]
  ∧ vec_id (vector_of (lit "kb") (lit "d1") 1 (lit "lo world") [8])
    = lit "d1-chunk-1".
Proof. split; vm_compute; reflexivity. Qed.

Example ingestion_without_keys :
  DOCUMENTS (Demo.ingested Demo.offline "/data/a.txt") !! lit "d1"
  = Some (Demo.record "/data/a.txt" "error"
            (Some (lit "missing OPENAI_API_KEY or PINECONE_API_KEY for ingestion"))).
Proof. vm_compute; reflexivity. Qed.

Example query_without_prompt :
  rag_stream Demo.online ∅ = HTTPException 400 (lit "prompt is required")
  ∧ rag_stream Demo.online {[ lit "prompt" := blank ]}
    = HTTPException 400 (lit "prompt is required").
Proof. split; reflexivity. Qed.

Example answered_stream :
  (token_stream Demo.online (lit "hi") blank initial_state).1
  = ([Yield (lit "Hello" ++ [10]); Yield (lit " there" ++ [10])], Ok tt).
Proof. vm_compute; reflexivity. Qed.

(** ** Records in the status map *)

Lemma mark_lookup k st nt s record :
  DOCUMENTS s !! k = Some record →
  DOCUMENTS (mark k st nt s) !! k = Some (set_note (Some nt) (set_status st record)).
Proof.
  intros Hk. unfold mark; simpl.
  rewrite !lookup_alter_eq, Hk. reflexivity.
Qed.

Lemma mark_index_calls k st nt s : index_calls (mark k st nt s) = index_calls s.
Proof. reflexivity. Qed.

(** ** [get_pinecone] and [upsert_to_pinecone] leave the status map alone *)

Lemma get_pinecone_frame w s r s' :
  get_pinecone w s = (r, s') →
  DOCUMENTS s' = DOCUMENTS s ∧ index_calls s' = index_calls s
  ∧ chain_cache s' = chain_cache s.
Proof.
  unfold get_pinecone, bind, get, ret, call, modify.
  intros H. repeat case_match; simplify_eq; auto.
Qed.

Lemma upsert_to_pinecone_frame w pc chunks col doc emb s r s' :
  upsert_to_pinecone w pc chunks col doc emb s = (r, s') →
  DOCUMENTS s' = DOCUMENTS s ∧ pc_client s' = pc_client s
  ∧ chain_cache s' = chain_cache s.
Proof.
  unfold upsert_to_pinecone, bind, call, modify.
  intros H. repeat case_match; simplify_eq; auto.
Qed.

(** [process_ingestion] on a key of the map: the [try] block, then the
    handler when the block raised an [Exception]. *)
Lemma process_ingestion_present w k s record :
  DOCUMENTS s !! k = Some record →
  process_ingestion w k s =
    match ingestion_steps w k record s with
    | (Ok a, s1) => (Ok a, s1)
    | (Raise e, s1) =>
        if isinstance_Exception e then (Ok tt, mark k (lit "error") (str_exc e) s1)
        else (Raise e, s1)
    end.
Proof.
  intros Hk. unfold process_ingestion, bind, get, try_except. rewrite Hk.
  destruct (ingestion_steps w k record s) as [[a|e] s1]; [done|].
  destruct (isinstance_Exception e); reflexivity.
Qed.

(** ** The stages of an ingestion run *)

Lemma ingestion_steps_raises w k s record e s1 :
  stage_raises w s record e s1 →
  ingestion_steps w k record s = (Raise e, s1).
Proof.
  unfold ingestion_steps, bind, call, raise, ret.
  destruct 1 as [e He|text e Ht He|text Ht Hc|chunks e (text & Ht & Hc & Hne) Hkey He
                |chunks e s1 (text & Ht & Hc & Hne) Hemb Hpc
                |chunks pc s1 (text & Ht & Hc & Hne) Hemb Hpc Hmiss
                |chunks pc s1 e s2 (text & Ht & Hc & Hne) [Hkey Hinit] Hpc Hup].
  - by rewrite He.
  - by rewrite Ht, He.
  - by rewrite Ht, Hc.
  - rewrite Ht, Hc. destruct chunks; [done|]. by rewrite Hkey, He.
  - rewrite Ht, Hc. destruct chunks; [done|].
    destruct Hemb as [Hkey|[Hkey Hinit]]; rewrite Hkey, ?Hinit, Hpc; done.
  - rewrite Ht, Hc. destruct chunks; [done|].
    destruct Hemb as [Hkey|[Hkey Hinit]]; rewrite Hkey, ?Hinit, Hpc.
    + done.
    + destruct Hmiss as [Hkey' | ->]; [congruence|done].
  - rewrite Ht, Hc. destruct chunks; [done|].
    rewrite Hkey, Hinit, Hpc. fold (embedder_of w). by rewrite Hup.
Qed.

Lemma ingestion_steps_succeeds w k s record chunks s2 :
  all_stages_succeed w s record chunks s2 →
  ingestion_steps w k record s
  = (Ok tt, mark k (lit "ready") (upserted_note (length chunks)) s2).
Proof.
  intros ((text & Ht & Hc & Hne) & [Hkey Hinit] & pc & s1 & Hpc & Hup).
  unfold ingestion_steps, bind, call, raise, ret, modify.
  rewrite Ht, Hc. destruct chunks as [|c0 cs]; [done|].
  rewrite Hkey, Hinit, Hpc. fold (embedder_of w). by rewrite Hup.
Qed.

(** A run either has a stage that raises or has none. *)
Lemma stages_exhaustive w s record :
  (∃ e s1, stage_raises w s record e s1)
  ∨ (∃ chunks s2, all_stages_succeed w s record chunks s2).
Proof.
  destruct (extract_text w (storage_uri record)) as [text|e] eqn:Ht;
    [|left; eauto using raises_extraction].
  destruct (split_text w 800 120 text) as [chunks|e] eqn:Hc;
    [|left; eauto using raises_chunking].
  destruct (decide (chunks = [])) as [->|Hne];
    [left; eauto using raises_no_chunks|].
  assert (chunked w record chunks) as Hch by (exists text; auto).
  destruct (truthy (OPENAI_API_KEY w)) eqn:Hkey.
  - destruct (OpenAIEmbeddings_init w (OPENAI_EMBED_MODEL w) (OPENAI_API_KEY w))
      as [[]|e] eqn:Hinit; [|left; eauto using raises_embedder].
    assert (embedder_built w) as Hb by (split; auto).
    destruct (get_pinecone w s) as [[[pc|]|e] s1] eqn:Hpc.
    + destruct (upsert_to_pinecone w pc chunks (collection_id record)
                  (document_id record) (embedder_of w) s1) as [[[]|e] s2] eqn:Hup.
      * right. exists chunks, s2. repeat split; eauto.
      * left. eauto using raises_upsert.
    + left. do 2 eexists. eapply raises_credentials; eauto.
    + left. eauto using raises_client.
  - destruct (get_pinecone w s) as [[pc|e] s1] eqn:Hpc.
    + left. do 2 eexists. eapply raises_credentials; eauto.
    + left. eauto using raises_client.
Qed.

(** No stage writes to the status map. *)
Lemma stage_raises_frame w s record e s1 :
  stage_raises w s record e s1 → DOCUMENTS s1 = DOCUMENTS s.
Proof.
  destruct 1; try done.
  - by eapply get_pinecone_frame.
  - by eapply get_pinecone_frame.
  - etrans; [by eapply upsert_to_pinecone_frame|by eapply get_pinecone_frame].
Qed.

Lemma all_stages_succeed_frame w s record chunks s2 :
  all_stages_succeed w s record chunks s2 → DOCUMENTS s2 = DOCUMENTS s.
Proof.
  intros (_ & _ & pc & s1 & Hpc & Hup).
  etrans; [by eapply upsert_to_pinecone_frame|by eapply get_pinecone_frame].
Qed.

(** ** Ingestion: outcomes of a run *)

(** C10. [process_ingestion] called with a [document_id] that is not a key
    of the status map returns normally, without raising, and leaves the
    whole process state as it was: the map, every record in it, the cached
    client and the calls made on the index. *)
Theorem process_ingestion_unknown_id (w : World) (document_id : pystr)
    (s : State) :
  DOCUMENTS s !! document_id = None →
  process_ingestion w document_id s = (Ok tt, s).
Proof.
  intros Hk. unfold process_ingestion, bind, get, ret. by rewrite Hk.
Qed.

Lemma process_ingestion_unknown_id_witness :
  process_ingestion Demo.online (lit "d2") (Demo.accepted "/data/a.txt")
  = (Ok tt, Demo.accepted "/data/a.txt").
Proof.
  apply process_ingestion_unknown_id. reflexivity.
Defined.

(** C1. When the extracted text yields no chunks, the run ends normally
    with the record's status ["error"] and a note that contains
    ["no text extracted"]; the status is not ["ready"], and no call was
    made on the vector index. *)
Theorem no_chunks_is_error (w : World) (s : State) (k : pystr)
    (record : DocumentRecord) (text : pystr) :
  DOCUMENTS s !! k = Some record →
  extract_text w (storage_uri record) = Ok text →
  split_text w 800 120 text = Ok [] →
  ∃ s' r',
    process_ingestion w k s = (Ok tt, s')
    ∧ DOCUMENTS s' !! k = Some r'
    ∧ status r' = lit "error"
    ∧ (∃ n, note r' = Some n ∧ contains n (lit "no text extracted") = true)
    ∧ status r' ≠ lit "ready"
    ∧ index_calls s' = index_calls s.
Proof.
  intros Hk Ht Hc.
  pose proof (raises_no_chunks w s record text Ht Hc) as Hr.
  exists (mark k (lit "error") (lit "no text extracted") s).
  eexists. split.
  { rewrite (process_ingestion_present _ _ _ _ Hk),
      (ingestion_steps_raises _ k _ _ _ _ Hr). reflexivity. }
  split; [by apply mark_lookup|].
  repeat split; [|done].
  exists (lit "no text extracted"). split; reflexivity.
Qed.

Lemma no_chunks_is_error_witness :
  ∃ s' r',
    process_ingestion Demo.online (lit "d1") (Demo.accepted "/data/empty.txt")
    = (Ok tt, s')
    ∧ DOCUMENTS s' !! lit "d1" = Some r'
    ∧ status r' = lit "error"
    ∧ (∃ n, note r' = Some n ∧ contains n (lit "no text extracted") = true)
    ∧ status r' ≠ lit "ready"
    ∧ index_calls s' = index_calls (Demo.accepted "/data/empty.txt").
Proof.
  eapply (no_chunks_is_error _ _ _ _ blank); reflexivity.
Defined.

(** C2. For a [document_id] that is a key of the status map: when a stage
    of the run (extraction, chunking, the construction and check of the
    embedder and the index client, the upsert) raises an [Exception], the
    run ends with the record's status ["error"] and its note the
    exception's message; when every stage returns, it ends with the status
    ["ready"]; one of the two is the case in every run; and a run that
    returns leaves the record's status ["ready"] or ["error"]. *)
Theorem ingestion_ends_ready_or_error (w : World) (s : State) (k : pystr)
    (record : DocumentRecord) :
  DOCUMENTS s !! k = Some record →
  (∀ e s1, stage_raises w s record e s1 → isinstance_Exception e = true →
     ∃ s', process_ingestion w k s = (Ok tt, s')
           ∧ DOCUMENTS s' !! k
             = Some (set_note (Some (str_exc e))
                       (set_status (lit "error") record)))
  ∧ (∀ chunks s2, all_stages_succeed w s record chunks s2 →
     ∃ s', process_ingestion w k s = (Ok tt, s')
           ∧ DOCUMENTS s' !! k
             = Some (set_note (Some (upserted_note (length chunks)))
                       (set_status (lit "ready") record)))
  ∧ ((∃ e s1, stage_raises w s record e s1)
     ∨ (∃ chunks s2, all_stages_succeed w s record chunks s2))
  ∧ (∀ s', process_ingestion w k s = (Ok tt, s') →
     ∃ r', DOCUMENTS s' !! k = Some r'
           ∧ (status r' = lit "ready" ∨ status r' = lit "error")).
Proof.
  intros Hk.
  assert (∀ e s1, stage_raises w s record e s1 →
            isinstance_Exception e = true →
            process_ingestion w k s = (Ok tt, mark k (lit "error") (str_exc e) s1)
            ∧ DOCUMENTS s1 !! k = Some record) as Hraise.
  { intros e s1 Hr He. split.
    - by rewrite (process_ingestion_present _ _ _ _ Hk),
        (ingestion_steps_raises _ k _ _ _ _ Hr), He.
    - by rewrite (stage_raises_frame _ _ _ _ _ Hr). }
  assert (∀ chunks s2, all_stages_succeed w s record chunks s2 →
            process_ingestion w k s
            = (Ok tt, mark k (lit "ready") (upserted_note (length chunks)) s2)
            ∧ DOCUMENTS s2 !! k = Some record) as Hok.
  { intros chunks s2 Hs. split.
    - by rewrite (process_ingestion_present _ _ _ _ Hk),
        (ingestion_steps_succeeds _ k _ _ _ _ Hs).
    - by rewrite (all_stages_succeed_frame _ _ _ _ _ Hs). }
  split; [|split; [|split]].
  - intros e s1 Hr He. destruct (Hraise e s1 Hr He) as [Hrun Hl].
    eexists; split; [exact Hrun|]. by apply mark_lookup.
  - intros chunks s2 Hs. destruct (Hok chunks s2 Hs) as [Hrun Hl].
    eexists; split; [exact Hrun|]. by apply mark_lookup.
  - apply stages_exhaustive.
  - intros s' Hrun.
    destruct (stages_exhaustive w s record) as [(e & s1 & Hr)|(chunks & s2 & Hs)].
    + destruct (isinstance_Exception e) eqn:He.
      * destruct (Hraise e s1 Hr He) as [Hrun' Hl].
        rewrite Hrun' in Hrun. simplify_eq.
        eexists; split; [by apply mark_lookup|]. by right.
      * rewrite (process_ingestion_present _ _ _ _ Hk),
          (ingestion_steps_raises _ k _ _ _ _ Hr), He in Hrun. done.
    + destruct (Hok chunks s2 Hs) as [Hrun' Hl].
      rewrite Hrun' in Hrun. simplify_eq.
      eexists; split; [by apply mark_lookup|]. by left.
Qed.

(** C8. For a path that does not exist, [extract_text] raises
    [FileNotFoundError]; in an ingestion run of a record with that
    [storage_uri] the exception is caught and the record ends with the
    status ["error"] and the exception's message as its note. *)
Theorem missing_path_is_not_found (w : World) (path : pystr) :
  Path_exists w path = false →
  extract_text w path
  = Raise (FileNotFoundError (lit "file not found: " ++ path))
  ∧ ∀ s k record,
      DOCUMENTS s !! k = Some record →
      storage_uri record = path →
      ∃ s', process_ingestion w k s = (Ok tt, s')
            ∧ DOCUMENTS s' !! k
              = Some (set_note (Some (lit "file not found: " ++ path))
                        (set_status (lit "error") record))
            ∧ index_calls s' = index_calls s.
Proof.
  intros Hex.
  assert (extract_text w path
          = Raise (FileNotFoundError (lit "file not found: " ++ path))) as Hx.
  { unfold extract_text. by rewrite Hex. }
  split; [exact Hx|].
  intros s k record Hk <-.
  pose proof (raises_extraction w s record _ Hx) as Hr.
  exists (mark k (lit "error") (lit "file not found: " ++ storage_uri record) s).
  split; [|split; [by apply mark_lookup|done]].
  by rewrite (process_ingestion_present _ _ _ _ Hk),
    (ingestion_steps_raises _ k _ _ _ _ Hr).
Qed.

Lemma missing_path_is_not_found_witness :
  extract_text Demo.online (lit "/data/gone.txt")
  = Raise (FileNotFoundError (lit "file not found: /data/gone.txt"))
  ∧ ∃ s',
      process_ingestion Demo.online (lit "d1") (Demo.accepted "/data/gone.txt")
      = (Ok tt, s')
      ∧ (status <$> DOCUMENTS s' !! lit "d1") = Some (lit "error")
      ∧ (note <$> DOCUMENTS s' !! lit "d1")
        = Some (Some (lit "file not found: /data/gone.txt")).
Proof.
  destruct (missing_path_is_not_found Demo.online (lit "/data/gone.txt")
              eq_refl) as [Hx Hrun].
  split; [exact Hx|].
  destruct (Hrun (Demo.accepted "/data/gone.txt") (lit "d1") _ eq_refl eq_refl)
    as (s' & Hs' & Hl & _).
  exists s'. split; [exact Hs'|]. rewrite Hl. split; reflexivity.
Defined.

(** ** The vectors of a successful run *)

Lemma upsert_loop_Ok w emb col doc chunks : ∀ i acc vs,
  upsert_loop w emb col doc i acc chunks = Ok vs →
  ∃ embs,
    Forall2 (λ c e, embed_query w emb c = Ok e) chunks embs
    ∧ vs = acc ++ imap (λ j ce, vector_of col doc (i + j) ce.1 ce.2)
                    (zip chunks embs).
Proof.
  induction chunks as [|c chunks IH]; intros i acc vs H; simpl in H.
  - exists []. split; [constructor|]. simplify_eq. by rewrite app_nil_r.
  - unfold and_then in H.
    destruct (embed_query w emb c) as [e|] eqn:He; [|done].
    apply IH in H as (embs & Hall & ->).
    exists (e :: embs). split; [by constructor|].
    rewrite <- app_assoc. simpl. f_equal.
    rewrite Nat.add_0_r. f_equal.
    apply imap_ext. intros j [c' e'] _. unfold compose. simpl.
    by rewrite Nat.add_succ_r.
Qed.

Lemma upsert_to_pinecone_Ok w pc chunks col doc emb s s' :
  upsert_to_pinecone w pc chunks col doc emb s = (Ok tt, s') →
  ∃ embs,
    Forall2 (λ c e, embed_query w emb c = Ok e) chunks embs
    ∧ index_calls s'
      = index_calls s ++
        [ {| call_index := VECTOR_INDEX w;
             call_vectors :=
               imap (λ j ce, vector_of col doc j ce.1 ce.2) (zip chunks embs);
             call_namespace := col |} ].
Proof.
  unfold upsert_to_pinecone, bind, call, modify. intros H.
  destruct (Index_init w pc (VECTOR_INDEX w)); [|done].
  destruct (upsert_loop w emb col doc 0 [] chunks) as [vs|] eqn:Hloop; [|done].
  destruct (index_upsert w _); [|done]. simplify_eq.
  apply upsert_loop_Ok in Hloop as (embs & Hall & ->).
  exists embs. split; [done|]. reflexivity.
Qed.

(** A run that returns with the status ["ready"] went through every
    stage. *)
Lemma ready_run_succeeded w s k record s' r' :
  DOCUMENTS s !! k = Some record →
  process_ingestion w k s = (Ok tt, s') →
  DOCUMENTS s' !! k = Some r' →
  status r' = lit "ready" →
  ∃ chunks s2,
    all_stages_succeed w s record chunks s2
    ∧ s' = mark k (lit "ready") (upserted_note (length chunks)) s2.
Proof.
  intros Hk Hrun Hk' Hready.
  rewrite (process_ingestion_present _ _ _ _ Hk) in Hrun.
  destruct (stages_exhaustive w s record) as [(e & s1 & Hr)|(chunks & s2 & Hs)].
  - rewrite (ingestion_steps_raises _ k _ _ _ _ Hr) in Hrun.
    destruct (isinstance_Exception e); [|done]. simplify_eq.
    rewrite (mark_lookup _ _ _ _ record) in Hk'
      by (by rewrite (stage_raises_frame _ _ _ _ _ Hr)).
    by simplify_eq.
  - rewrite (ingestion_steps_succeeds _ k _ _ _ _ Hs) in Hrun. simplify_eq.
    eauto.
Qed.

(** C6. After a successful ingestion of a document with the chunks
    [chunks], the vector index has received one more call: an upsert into
    the namespace [collection_id] of one vector per chunk, in chunk order,
    the vector of index [i] having the id ["{document_id}-chunk-{i}"], the
    embedding of the chunk as its values, and the metadata [collection_id],
    [document_id], [chunk_id = "chunk-{i}"] and [text] the chunk; and the
    record's note tells the number of chunks upserted. *)
Theorem successful_ingestion_vectors (w : World) (s : State) (k : pystr)
    (record : DocumentRecord) (s' : State) (r' : DocumentRecord) :
  DOCUMENTS s !! k = Some record →
  process_ingestion w k s = (Ok tt, s') →
  DOCUMENTS s' !! k = Some r' →
  status r' = lit "ready" →
  ∃ text chunks vectors,
    extract_text w (storage_uri record) = Ok text
    ∧ split_text w 800 120 text = Ok chunks
    ∧ index_calls s'
      = index_calls s ++
        [ {| call_index := VECTOR_INDEX w; call_vectors := vectors;
             call_namespace := collection_id record |} ]
    ∧ length vectors = length chunks
    ∧ (∀ i chunk, chunks !! i = Some chunk →
         ∃ v, vectors !! i = Some v
              ∧ vec_id v = document_id record ++ lit "-chunk-" ++ str_int i
              ∧ embed_query w (embedder_of w) chunk = Ok (vec_values v)
              ∧ vec_metadata v
                = list_to_map
                    [ (lit "collection_id", collection_id record);
                      (lit "document_id", document_id record);
                      (lit "chunk_id", lit "chunk-" ++ str_int i);
                      (lit "text", chunk) ])
    ∧ note r'
      = Some (lit "Upserted " ++ str_int (length chunks)
              ++ lit " chunks to Pinecone.").
Proof.
  intros Hk Hrun Hk' Hready.
  destruct (ready_run_succeeded _ _ _ _ _ _ Hk Hrun Hk' Hready)
    as (chunks & s2 & Hs & ->).
  pose proof (all_stages_succeed_frame _ _ _ _ _ Hs) as Hdocs.
  destruct Hs as ((text & Ht & Hc & Hne) & _ & pc & s1 & Hpc & Hup).
  apply get_pinecone_frame in Hpc as (_ & Hcalls & _).
  apply upsert_to_pinecone_Ok in Hup as (embs & Hall & Hcalls2).
  rewrite Hcalls in Hcalls2.
  exists text, chunks,
    (imap (λ j ce, vector_of (collection_id record) (document_id record) j
                     ce.1 ce.2) (zip chunks embs)).
  pose proof (Forall2_length _ _ _ Hall) as Hlen.
  split; [done|]. split; [done|]. split; [by rewrite mark_index_calls|].
  split; [by rewrite length_imap, length_zip, <- Hlen, Nat.min_id|].
  split.
  - intros i chunk Hi.
    destruct (Forall2_lookup_l _ _ _ _ _ Hall Hi) as (e & He & Hq).
    exists (vector_of (collection_id record) (document_id record) i chunk e).
    split; [|done].
    rewrite list_lookup_imap.
    assert (zip chunks embs !! i = Some (chunk, e)) as ->; [|done].
    by apply lookup_zip_Some.
  - rewrite (mark_lookup _ _ _ _ record) in Hk' by (by rewrite Hdocs).
    by simplify_eq.
Qed.

Lemma successful_ingestion_vectors_witness :
  ∃ text chunks vectors,
    extract_text Demo.online (lit "/data/a.txt") = Ok text
    ∧ split_text Demo.online 800 120 text = Ok chunks
    ∧ index_calls (Demo.ingested Demo.online "/data/a.txt")
      = index_calls (Demo.accepted "/data/a.txt") ++
        [ {| call_index := VECTOR_INDEX Demo.online; call_vectors := vectors;
             call_namespace := lit "kb" |} ]
    ∧ length vectors = length chunks
    ∧ (∀ i chunk, chunks !! i = Some chunk →
         ∃ v, vectors !! i = Some v
              ∧ vec_id v = lit "d1" ++ lit "-chunk-" ++ str_int i
              ∧ embed_query Demo.online (embedder_of Demo.online) chunk
                = Ok (vec_values v)
              ∧ vec_metadata v
                = list_to_map
                    [ (lit "collection_id", lit "kb");
                      (lit "document_id", lit "d1");
                      (lit "chunk_id", lit "chunk-" ++ str_int i);
                      (lit "text", chunk) ])
    ∧ Some (lit "Upserted 2 chunks to Pinecone.")
      = Some (lit "Upserted " ++ str_int (length chunks)
              ++ lit " chunks to Pinecone.").
Proof.
  apply (successful_ingestion_vectors Demo.online
           (Demo.accepted "/data/a.txt") (lit "d1")
           (Demo.record "/data/a.txt" "processing" None)
           (Demo.ingested Demo.online "/data/a.txt")
           (Demo.record "/data/a.txt" "ready"
              (Some (lit "Upserted 2 chunks to Pinecone.")))).
  all: vm_compute; reflexivity.
Defined.

Lemma ingestion_ends_ready_or_error_witness :
  (∃ s', process_ingestion Demo.online (lit "d1")
           (Demo.accepted "/data/gone.txt") = (Ok tt, s')
         ∧ DOCUMENTS s' !! lit "d1"
           = Some (Demo.record "/data/gone.txt" "error"
                     (Some (lit "file not found: /data/gone.txt"))))
  ∧ (∃ s', process_ingestion Demo.online (lit "d1")
             (Demo.accepted "/data/a.txt") = (Ok tt, s')
           ∧ DOCUMENTS s' !! lit "d1"
             = Some (Demo.record "/data/a.txt" "ready"
                       (Some (lit "Upserted 2 chunks to Pinecone.")))).
Proof.
  split.
  - destruct (ingestion_ends_ready_or_error Demo.online
                (Demo.accepted "/data/gone.txt") (lit "d1")
                (Demo.record "/data/gone.txt" "processing" None) eq_refl)
      as (Hraise & _).
    apply (Hraise (FileNotFoundError (lit "file not found: /data/gone.txt"))
             (Demo.accepted "/data/gone.txt")); [|reflexivity].
    apply raises_extraction. reflexivity.
  - destruct (ingestion_ends_ready_or_error Demo.online
                (Demo.accepted "/data/a.txt") (lit "d1")
                (Demo.record "/data/a.txt" "processing" None) eq_refl)
      as (_ & Hok & _).
    apply (Hok [lit "hel"; lit "lo world"]
             (upsert_to_pinecone Demo.online (mkPinecone (lit "pc-test"))
                [lit "hel"; lit "lo world"] (lit "kb") (lit "d1")
                (embedder_of Demo.online)
                (with_pc_client (Some (mkPinecone (lit "pc-test")))
                   (Demo.accepted "/data/a.txt"))).2).
    split; [|split].
    + exists (lit "hello world").
      split; [vm_compute; reflexivity|split; [vm_compute; reflexivity|done]].
    + split; reflexivity.
    + exists (mkPinecone (lit "pc-test")),
        (with_pc_client (Some (mkPinecone (lit "pc-test")))
           (Demo.accepted "/data/a.txt")).
      split; vm_compute; reflexivity.
Defined.

(** ** The request handlers *)

(** C5. An ingest payload that lacks one of [document_id],
    [collection_id] and [storage_uri] is answered with a 400 error; the
    status map, the rest of the process state and the list of background
    tasks are left as they were. *)
Theorem ingest_missing_field (w : World) (payload : Payload)
    (tasks : list Task) (s : State) :
  payload !! lit "document_id" = None
  ∨ payload !! lit "collection_id" = None
  ∨ payload !! lit "storage_uri" = None →
  ingest w payload tasks s
  = (HTTPException 400 (lit "missing required fields"), tasks, s).
Proof.
  intros H. unfold ingest. simpl existsb.
  destruct H as [-> | [-> | ->]]; simpl;
    rewrite ?orb_true_r; reflexivity.
Qed.

Lemma ingest_missing_field_witness :
  ingest Demo.online
    (list_to_map [ (lit "document_id", lit "d9");
                   (lit "storage_uri", lit "/data/a.txt") ])
    [] (Demo.accepted "/data/a.txt")
  = (HTTPException 400 (lit "missing required fields"), [],
     Demo.accepted "/data/a.txt").
Proof.
  apply ingest_missing_field. right; left. reflexivity.
Defined.

(** An accepted payload stores a record with the status ["processing"]
    under its [document_id] and schedules its ingestion. *)
Lemma ingest_accepted w payload tasks s doc col uri :
  payload !! lit "document_id" = Some doc →
  payload !! lit "collection_id" = Some col →
  payload !! lit "storage_uri" = Some uri →
  ∃ record,
    ingest w payload tasks s
    = (Return (list_to_map [ (lit "status", lit "accepted");
                             (lit "document_id", doc) ]),
       tasks ++ [Task_process_ingestion doc],
       with_DOCUMENTS (insert doc record) s)
    ∧ document_id record = doc
    ∧ collection_id record = col
    ∧ storage_uri record = uri
    ∧ status record = lit "processing"
    ∧ note record = None.
Proof.
  intros Hd Hc Hu. unfold ingest. simpl existsb.
  rewrite Hd, Hc, Hu. simpl.
  rewrite (lookup_total_correct _ _ _ Hd), (lookup_total_correct _ _ _ Hc),
    (lookup_total_correct _ _ _ Hu).
  eexists. split; [reflexivity|]. done.
Qed.

(** A payload that lacks a required field is turned down and nothing
    changes; for use in other proofs. *)
Lemma ingest_rejects w payload tasks s :
  payload !! lit "document_id" = None
  ∨ payload !! lit "collection_id" = None
  ∨ payload !! lit "storage_uri" = None →
  ingest w payload tasks s
  = (HTTPException 400 (lit "missing required fields"), tasks, s).
Proof.
  intros H. unfold ingest. simpl existsb.
  destruct H as [-> | [-> | ->]]; simpl;
    rewrite ?orb_true_r; reflexivity.
Qed.

(** Either answer of [ingest]. *)
Lemma ingest_cases w payload tasks s :
  ingest w payload tasks s
  = (HTTPException 400 (lit "missing required fields"), tasks, s)
  ∨ ∃ doc record response,
      ingest w payload tasks s
      = (Return response, tasks ++ [Task_process_ingestion doc],
         with_DOCUMENTS (insert doc record) s)
      ∧ document_id record = doc
      ∧ status record = lit "processing"
      ∧ note record = None.
Proof.
  unfold ingest.
  destruct (existsb _ _); [by left|].
  right. do 3 eexists. split; [reflexivity|done].
Qed.

(** What the middleware does with a request.  For [request.url.path]
    under [/internal/] and a non-empty [SERVICE_TOKEN], it calls the rest
    of the application when the [x-service-token] header equals the token
    and raises [HTTPException(401)] otherwise, also when the header is
    absent.  When [SERVICE_TOKEN] is empty or unset, and for any other
    [request.url.path], it calls the rest of the application whatever the
    headers. *)
Lemma verify_service_token_cases (w : World) (R : Type) (request : Request)
    (call_next : Request → R) :
  (startswith (url_path request) (lit "/internal/") = true →
   SERVICE_TOKEN w ≠ [] →
   (headers request !! lit "x-service-token" = Some (SERVICE_TOKEN w) →
    verify_service_token w request call_next = Return (call_next request))
   ∧ (headers request !! lit "x-service-token" ≠ Some (SERVICE_TOKEN w) →
      verify_service_token w request call_next
      = HTTPException 401 (lit "unauthorized")))
  ∧ (environ w !! lit "SERVICE_TOKEN" = None
     ∨ environ w !! lit "SERVICE_TOKEN" = Some blank →
     verify_service_token w request call_next = Return (call_next request))
  ∧ (startswith (url_path request) (lit "/internal/") = false →
     verify_service_token w request call_next = Return (call_next request)).
Proof.
  unfold verify_service_token. split; [|split].
  - intros -> Htok.
    destruct (SERVICE_TOKEN w) as [|c tok] eqn:Ht; [done|]. simpl.
    split; intros Hh.
    + rewrite bool_decide_eq_false_2; [done|]. by intros Hne.
    + by rewrite bool_decide_eq_true_2.
  - intros Henv.
    assert (SERVICE_TOKEN w = []) as ->.
    { unfold SERVICE_TOKEN, get_env. by destruct Henv as [-> | ->]. }
    by rewrite andb_false_r.
  - by intros ->.
Qed.

(** C4. The gate does not do what is claimed, on two counts.  A request
    for [/internal/ingest] without the token makes the middleware raise
    [HTTPException(401)], and raised there the exception is answered with
    the status 500, not 401.  And a request routed to [/internal/ingest]
    with a wrong token and a [Host] header that moves [request.url.path]
    away from [/internal/] is not rejected at all: the middleware calls
    the rest of the application. *)
Theorem service_token_gate_fails :
  SERVICE_TOKEN Demo.online = lit "s3cret"
  ∧ verify_service_token Demo.online Demo.without_token (λ _, lit "accepted")
    = HTTPException 401 (lit "unauthorized")
  ∧ serve_middleware
      (verify_service_token Demo.online Demo.without_token
         (λ _, lit "accepted"))
    = ServerError 500
  ∧ startswith (scope_path Demo.forged_host) (lit "/internal/") = true
  ∧ headers Demo.forged_host !! lit "x-service-token"
    ≠ Some (SERVICE_TOKEN Demo.online)
  ∧ serve_middleware
      (verify_service_token Demo.online Demo.forged_host
         (λ _, lit "accepted"))
    = Response (lit "accepted").
Proof.
  split; [reflexivity|].
  destruct (verify_service_token_cases Demo.online pystr Demo.without_token
              (λ _, lit "accepted")) as ((_ & Hraise) & _ & _);
    [reflexivity|discriminate|].
  rewrite Hraise by (vm_compute; discriminate).
  split; [reflexivity|]. split; [reflexivity|]. split; [reflexivity|].
  split; [vm_compute; discriminate|].
  destruct (verify_service_token_cases Demo.online pystr Demo.forged_host
              (λ _, lit "accepted")) as (_ & _ & Hpass).
  by rewrite Hpass.
Qed.

(** ** The status of a record over the life of the service *)

Lemma retrieve_context_frame w query col s r s' :
  retrieve_context w query col s = (r, s') → DOCUMENTS s' = DOCUMENTS s.
Proof.
  unfold retrieve_context, bind at 1. intros H.
  destruct (get_pinecone w s) as [[pc|e] s1] eqn:Hpc;
    apply get_pinecone_frame in Hpc as (Hd & _); [|by simplify_eq].
  rewrite <- Hd. clear Hd s.
  unfold bind, call, raise, ret in H.
  repeat case_match; by simplify_eq.
Qed.

Lemma get_langchain_chain_frame w s r s' :
  get_langchain_chain w s = (r, s') → DOCUMENTS s' = DOCUMENTS s.
Proof.
  unfold get_langchain_chain, bind, get, call, modify, ret. intros H.
  repeat case_match; by simplify_eq.
Qed.

Lemma answer_frame w prompt kb_id s out s' :
  answer w prompt kb_id s = (out, s') → DOCUMENTS s' = DOCUMENTS s.
Proof.
  unfold answer, bind at 1. intros H.
  destruct (retrieve_context w prompt _ s) as [[found|e] s1] eqn:Hr;
    apply retrieve_context_frame in Hr; [|by simplify_eq].
  unfold bind, ret in H.
  destruct (get_langchain_chain w s1) as [[chain|e] s2] eqn:Hc;
    apply get_langchain_chain_frame in Hc; [|simplify_eq; congruence].
  destruct (chain_astream w chain prompt found.1). simplify_eq. congruence.
Qed.

Lemma token_stream_frame w prompt kb_id s out s' :
  token_stream w prompt kb_id s = (out, s') → DOCUMENTS s' = DOCUMENTS s.
Proof.
  unfold token_stream. intros H.
  destruct (answer w prompt kb_id s) as [[events [[]|exc]] s1] eqn:Ha;
    apply answer_frame in Ha; [by simplify_eq|].
  destruct (isinstance_Exception exc); [|by simplify_eq].
  destruct (play (synthetic prompt)). by simplify_eq.
Qed.

(** What a run of [process_ingestion] does to the status map: nothing, or
    it assigns the status ["ready"] or ["error"], and a note, on the
    record stored at its [document_id]. *)
Lemma process_ingestion_documents w doc s r s' :
  process_ingestion w doc s = (r, s') →
  DOCUMENTS s' = DOCUMENTS s
  ∨ ∃ st nt, (st = lit "ready" ∨ st = lit "error")
             ∧ DOCUMENTS s'
               = alter (set_note (Some nt)) doc
                   (alter (set_status st) doc (DOCUMENTS s)).
Proof.
  intros Hrun.
  destruct (DOCUMENTS s !! doc) as [record|] eqn:Hk.
  - rewrite (process_ingestion_present _ _ _ _ Hk) in Hrun.
    destruct (stages_exhaustive w s record) as [(e & s1 & Hr)|(chunks & s2 & Hs)].
    + rewrite (ingestion_steps_raises _ doc _ _ _ _ Hr) in Hrun.
      apply stage_raises_frame in Hr.
      destruct (isinstance_Exception e); simplify_eq; [|by left].
      right. exists (lit "error"), (str_exc e). split; [by right|].
      unfold mark; simpl. by rewrite Hr.
    + rewrite (ingestion_steps_succeeds _ doc _ _ _ _ Hs) in Hrun.
      apply all_stages_succeed_frame in Hs. simplify_eq.
      right. exists (lit "ready"), (upserted_note (length chunks)).
      split; [by left|]. unfold mark; simpl. by rewrite Hs.
  - unfold process_ingestion, bind, get, ret in Hrun. rewrite Hk in Hrun.
    simplify_eq. by left.
Qed.

(** An accepted payload stores the record built from it. *)
Lemma ingest_stores w payload tasks s :
  ingest w payload tasks s
  = (HTTPException 400 (lit "missing required fields"), tasks, s)
  ∨ ∃ doc record response,
      ingest w payload tasks s
      = (Return response, tasks ++ [Task_process_ingestion doc],
         with_DOCUMENTS (insert doc record) s)
      ∧ created_by w payload doc record.
Proof.
  destruct (payload !! lit "document_id") as [doc|] eqn:Hd;
    [|left; apply ingest_rejects; auto].
  destruct (payload !! lit "collection_id") as [col|] eqn:Hc;
    [|left; apply ingest_rejects; auto].
  destruct (payload !! lit "storage_uri") as [uri|] eqn:Hu;
    [|left; apply ingest_rejects; auto].
  right. exists doc. do 2 eexists. split.
  - unfold ingest. simpl existsb. rewrite Hd, Hc, Hu. simpl.
    rewrite (lookup_total_correct _ _ _ Hd), (lookup_total_correct _ _ _ Hc),
      (lookup_total_correct _ _ _ Hu). reflexivity.
  - by exists col, uri.
Qed.

(** What [ingest] does to the status map: a record found afterwards was
    there before, or is the one built from the payload. *)
Lemma ingest_documents w payload tasks s response tasks' s' k r' :
  ingest w payload tasks s = (response, tasks', s') →
  DOCUMENTS s' !! k = Some r' →
  DOCUMENTS s !! k = Some r' ∨ created_by w payload k r'.
Proof.
  intros Hin Hk.
  destruct (ingest_stores w payload tasks s)
    as [Hbad|(doc & record & resp & Hok & Hnew)].
  - rewrite Hbad in Hin. simplify_eq. by left.
  - rewrite Hok in Hin. simplify_eq. simpl in Hk.
    destruct (decide (doc = k)) as [<-|Hne].
    + rewrite lookup_insert_eq in Hk. simplify_eq. by right.
    + rewrite lookup_insert_ne in Hk by done. by left.
Qed.

(** What a run of [process_ingestion] does to a record. *)
Lemma process_ingestion_records w doc s res s' k r' :
  process_ingestion w doc s = (res, s') →
  DOCUMENTS s' !! k = Some r' →
  DOCUMENTS s !! k = Some r' ∨ finished_by doc s k r'.
Proof.
  intros Hrun Hk.
  destruct (process_ingestion_documents _ _ _ _ _ Hrun)
    as [Heq|(st & nt & Hst & Heq)]; rewrite Heq in Hk; [by left|].
  destruct (decide (doc = k)) as [<-|Hne].
  - rewrite !lookup_alter_eq in Hk.
    destruct (DOCUMENTS s !! doc) as [r0|] eqn:H0; [|done].
    simpl in Hk. simplify_eq. right. split; [done|]. by exists r0, st, nt.
  - rewrite !lookup_alter_ne in Hk by done. by left.
Qed.

(** Over a step, a record found afterwards was there before, was built by
    an ingest request, or was finished by a run of the ingestion. *)
Lemma step_records sv sv' k r' :
  step sv sv' →
  DOCUMENTS (state sv') !! k = Some r' →
  DOCUMENTS (state sv) !! k = Some r'
  ∨ (∃ w payload, created_by w payload k r')
  ∨ (∃ doc, finished_by doc (state sv) k r').
Proof.
  destruct 1 as [w payload sv response tasks s' Hin
                |w [doc] before after sv r s' Hp Hrun
                |w prompt kb_id sv out s' Hq]; simpl; intros Hk.
  - destruct (ingest_documents _ _ _ _ _ _ _ _ _ Hin Hk); eauto.
  - simpl in Hrun.
    destruct (process_ingestion_records _ _ _ _ _ _ _ Hrun Hk); eauto.
  - apply token_stream_frame in Hq. rewrite Hq in Hk. by left.
Qed.

(** Every record is stored under its own [document_id]. *)
Lemma reachable_keys sv k r :
  reachable sv → DOCUMENTS (state sv) !! k = Some r → document_id r = k.
Proof.
  intros Hreach. revert k r. unfold reachable in Hreach.
  eapply (rtc_ind_r (λ sv, ∀ k r, DOCUMENTS (state sv) !! k = Some r →
                             document_id r = k) boot); [| |exact Hreach].
  - intros k r Hk. simpl in Hk. by rewrite lookup_empty in Hk.
  - intros sv1 sv2 _ Hstep IH k r' Hk.
    destruct (step_records _ _ _ _ Hstep Hk)
      as [Hold|[(w & payload & col & uri & _ & _ & _ & ->)
               |(doc & _ & r & st & nt & Hold & _ & ->)]].
    + eauto.
    + done.
    + simpl. eauto.
Qed.

(** A record built without the [status] keyword would be ["queued"]; the
    only construction in the module, in [ingest], gives the keyword. *)
Lemma dataclass_default_status doc col uri title now :
  status (DocumentRecord_init doc col uri title None now) = lit "queued".
Proof. reflexivity. Qed.

(** C9. In every state the service can reach, each record of the status
    map has the status ["processing"], ["ready"] or ["error"], never the
    dataclass default ["queued"].  From such a state, the three operations
    of the service treat the records as follows.  After an ingest request,
    a record found in the map was there unchanged before, or is the record
    just built from the payload, with the status ["processing"].  After a
    run of [process_ingestion], a record found in the map was there
    unchanged before, or is the record of the run's [document_id] with
    ["ready"] or ["error"] assigned to its status: a run never sets
    ["processing"] or ["queued"].  A query changes no record. *)
Theorem status_never_queued (sv : Service) :
  reachable sv →
  (∀ k r, DOCUMENTS (state sv) !! k = Some r →
     status_in_use r ∧ status r ≠ lit "queued")
  ∧ (∀ w payload tasks response tasks' s' k r',
       ingest w payload tasks (state sv) = (response, tasks', s') →
       DOCUMENTS s' !! k = Some r' →
       DOCUMENTS (state sv) !! k = Some r'
       ∨ ∃ col uri,
           payload !! lit "document_id" = Some k
           ∧ payload !! lit "collection_id" = Some col
           ∧ payload !! lit "storage_uri" = Some uri
           ∧ r' = {| document_id := k; collection_id := col;
                     storage_uri := uri;
                     title := or_else (payload !! lit "title")
                                (lit "Untitled");
                     status := lit "processing"; note := None;
                     created_at := time_time w |})
  ∧ (∀ w doc res s' k r',
       process_ingestion w doc (state sv) = (res, s') →
       DOCUMENTS s' !! k = Some r' →
       DOCUMENTS (state sv) !! k = Some r'
       ∨ (k = doc
          ∧ ∃ r st nt,
              DOCUMENTS (state sv) !! k = Some r
              ∧ (st = lit "ready" ∨ st = lit "error")
              ∧ r' = set_note (Some nt) (set_status st r)))
  ∧ (∀ w prompt kb_id out s',
       token_stream w prompt kb_id (state sv) = (out, s') →
       DOCUMENTS s' = DOCUMENTS (state sv)).
Proof.
  intros Hreach.
  split; [|split; [|split]].
  - assert (∀ k r, DOCUMENTS (state sv) !! k = Some r → status_in_use r)
      as Hinv.
    { unfold reachable in Hreach.
      eapply (rtc_ind_r (λ sv, ∀ k r, DOCUMENTS (state sv) !! k = Some r →
                                 status_in_use r) boot); [| |exact Hreach].
      - intros k r Hk. simpl in Hk. by rewrite lookup_empty in Hk.
      - intros sv1 sv2 _ Hstep IH k r' Hk.
        destruct (step_records _ _ _ _ Hstep Hk)
          as [Hold|[(w & payload & col & uri & _ & _ & _ & ->)
                   |(doc & _ & r & st & nt & Hold & Hst & ->)]].
        + eauto.
        + by left.
        + unfold status_in_use. simpl. destruct Hst as [-> | ->]; auto. }
    intros k r Hk. split; [by eapply Hinv|].
    destruct (Hinv k r Hk) as [-> | [-> | ->]]; done.
  - intros w payload tasks response tasks' s' k r' Hin Hk.
    destruct (ingest_documents _ _ _ _ _ _ _ _ _ Hin Hk)
      as [Hold|(col & uri & Hd & Hc & Hu & ->)]; [by left|].
    right. by exists col, uri.
  - intros w doc res s' k r' Hrun Hk.
    destruct (process_ingestion_records _ _ _ _ _ _ _ Hrun Hk)
      as [Hold|Hfin]; [by left|by right].
  - intros w prompt kb_id out s' Hq. by eapply token_stream_frame.
Qed.

Lemma status_never_queued_witness :
  (∀ k r, DOCUMENTS (Demo.ingested Demo.online "/data/a.txt") !! k = Some r →
     status_in_use r ∧ status r ≠ lit "queued")
  ∧ (DOCUMENTS (Demo.ingested Demo.online "/data/a.txt") !! lit "d1"
     = Some (Demo.record "/data/bad.txt" "processing" None)
     ∨ ∃ col uri,
         Demo.payload "d1" "kb" "/data/bad.txt" !! lit "document_id"
         = Some (lit "d1")
         ∧ Demo.payload "d1" "kb" "/data/bad.txt" !! lit "collection_id"
           = Some col
         ∧ Demo.payload "d1" "kb" "/data/bad.txt" !! lit "storage_uri"
           = Some uri
         ∧ Demo.record "/data/bad.txt" "processing" None
           = {| document_id := lit "d1"; collection_id := col;
                storage_uri := uri;
                title := or_else
                           (Demo.payload "d1" "kb" "/data/bad.txt"
                              !! lit "title") (lit "Untitled");
                status := lit "processing"; note := None;
                created_at := time_time Demo.online |})
  ∧ (∀ w prompt kb_id out s',
       token_stream w prompt kb_id (Demo.ingested Demo.online "/data/a.txt")
       = (out, s') →
       DOCUMENTS s' = DOCUMENTS (Demo.ingested Demo.online "/data/a.txt")).
Proof.
  destruct (status_never_queued
              {| state := Demo.ingested Demo.online "/data/a.txt";
                 pending := [] |}) as (Hinv & Hingest & _ & Hquery).
  - apply (rtc_l step boot
             {| state := Demo.accepted "/data/a.txt";
                pending := [Task_process_ingestion (lit "d1")] |}).
    + apply (step_ingest Demo.online (Demo.payload "d1" "kb" "/data/a.txt")
               boot
               (ingest Demo.online (Demo.payload "d1" "kb" "/data/a.txt") []
                  initial_state).1.1
               [Task_process_ingestion (lit "d1")]
               (Demo.accepted "/data/a.txt")).
      vm_compute; reflexivity.
    + apply rtc_once.
      apply (step_task Demo.online (Task_process_ingestion (lit "d1")) [] []
               {| state := Demo.accepted "/data/a.txt";
                  pending := [Task_process_ingestion (lit "d1")] |}
               (Ok tt) (Demo.ingested Demo.online "/data/a.txt")).
      * reflexivity.
      * vm_compute; reflexivity.
  - split; [exact Hinv|]. split; [|exact Hquery].
    apply (Hingest Demo.online (Demo.payload "d1" "kb" "/data/bad.txt") []
             (ingest Demo.online (Demo.payload "d1" "kb" "/data/bad.txt") []
                (Demo.ingested Demo.online "/data/a.txt")).1.1
             [Task_process_ingestion (lit "d1")]
             (ingest Demo.online (Demo.payload "d1" "kb" "/data/bad.txt") []
                (Demo.ingested Demo.online "/data/a.txt")).2
             (lit "d1")).
    + vm_compute; reflexivity.
    + vm_compute; reflexivity.
Defined.

(** ** The codec *)

Module Utf8Facts.
Import Utf8.

Lemma scan_stray b r : stray b → scan (b :: r) = Malformed 1 :: scan r.
Proof.
  intros [H|H]; cbn [scan]; octets; reflexivity.
Qed.

Lemma scan_encode_char c r :
  scalar c → scan (encode_char c ++ r) = Char c :: scan r.
Proof.
  intros [Hr Hs]. unfold encode_char.
  destruct (Z.ltb_spec c 0x80); [|destruct (Z.ltb_spec c 0x800);
    [|destruct (Z.ltb_spec c 0x10000)]]; cbn [app scan].
  - octets. reflexivity.
  - octets. do 2 f_equal. euclid.
  - destruct (Z.eq_dec (c / 4096) 0); [|destruct (Z.eq_dec (c / 4096) 13)];
      octets; do 2 f_equal; euclid.
  - destruct (Z.eq_dec (c / 262144) 0); [|destruct (Z.eq_dec (c / 262144) 4)];
      octets; do 2 f_equal; euclid.
Qed.

Lemma decode_ignore_encode_chars t r :
  Forall scalar t →
  decode_ignore (encode_chars t ++ r) = t ++ decode_ignore r.
Proof.
  unfold decode_ignore, encode_chars.
  induction 1 as [|c t Hc _ IH]; [done|].
  cbn [mbind list_bind]. rewrite <- app_assoc, scan_encode_char by done.
  cbn [omap list_omap]. by rewrite IH.
Qed.

Lemma decode_ignore_stray b r :
  stray b → decode_ignore (b :: r) = decode_ignore r.
Proof.
  intros Hb. unfold decode_ignore. by rewrite scan_stray.
Qed.

Lemma is_surrogate_scalar c : scalar c → is_surrogate c = false.
Proof.
  intros [_ Hs]. unfold is_surrogate.
  destruct (Z.leb_spec 0xD800 c), (Z.leb_spec c 0xDFFF); try done. lia.
Qed.

(** Encoding succeeds on a string with no surrogate. *)
Lemma encode_from_plain object t : ∀ pos,
  Forall (λ c, is_surrogate c = false) t →
  encode_from object pos t = Ok (encode_chars t).
Proof.
  induction t as [|c t IH]; intros pos Ht; [done|].
  inversion_clear Ht as [|? ? Hc Ht']. cbn [encode_from].
  by rewrite Hc, IH.
Qed.

Lemma encode_plain t :
  Forall (λ c, is_surrogate c = false) t → encode t = Ok (encode_chars t).
Proof. apply encode_from_plain. Qed.

(** Decoding what was encoded gives the string back. *)
Lemma decode_ignore_encode t bs :
  Forall scalar t → encode t = Ok bs → decode_ignore bs = t.
Proof.
  intros Ht He. rewrite encode_plain in He.
  - simplify_eq. rewrite <- (app_nil_r (encode_chars t)).
    rewrite decode_ignore_encode_chars by done. by rewrite app_nil_r.
  - eapply Forall_impl; [exact Ht|]. apply is_surrogate_scalar.
Qed.

(** The replacing handler leaves one U+FFFD for each ill-formed run, the
    ignoring handler nothing. *)
Lemma decode_replace_length bs :
  length (decode_replace bs)
  = (length (decode_ignore bs) + ill_formed_runs bs)%nat.
Proof.
  unfold decode_replace, decode_ignore, ill_formed_runs.
  induction (scan bs) as [|[c|n] l IH]; [done| |]; cbn; rewrite ?IH; lia.
Qed.

End Utf8Facts.

(** ** Text extraction *)

(** C3, as the code has it.  For an existing path whose suffix is not
    [.pdf] and whose file can be opened and read, [extract_text] does not
    raise, whatever the octets: it returns the whole file decoded as UTF-8
    text, in which each undecodable octet is dropped and nothing is put in
    its place.  A well-formed file gives its text back (with the newline
    translation of text mode), a stray octet between two well-formed texts
    leaves no trace, and the result is shorter than the decoding with
    replacement characters by the number of ill-formed runs. *)
Theorem extract_text_ignores_undecodable (w : World) (path : pystr)
    (bs : pybytes) :
  Path_exists w path = true →
  lower (Path_suffix w path) ≠ lit ".pdf" →
  open_read w path = Ok bs →
  extract_text w path = Ok (universal_newlines (Utf8.decode_ignore bs))
  ∧ (∀ t, Forall Utf8.scalar t → Utf8.encode t = Ok bs →
       extract_text w path = Ok (universal_newlines t))
  ∧ (∀ t1 b t2,
       Forall Utf8.scalar t1 → Utf8.stray b →
       Forall Utf8.scalar t2 →
       bs = Utf8.encode_chars t1 ++ b :: Utf8.encode_chars t2 →
       extract_text w path = Ok (universal_newlines (t1 ++ t2)))
  ∧ length (Utf8.decode_replace bs)
    = (length (Utf8.decode_ignore bs) + Utf8.ill_formed_runs bs)%nat.
Proof.
  intros Hex Hsuf Hread.
  assert (extract_text w path = Ok (universal_newlines (Utf8.decode_ignore bs)))
    as Hx.
  { unfold extract_text. rewrite Hex. cbn [negb].
    rewrite bool_decide_eq_false_2 by done. by rewrite Hread. }
  split; [exact Hx|]. split; [|split].
  - intros t Ht He. by rewrite Hx, (Utf8Facts.decode_ignore_encode t bs).
  - intros t1 b t2 Ht1 Hb Ht2 ->. rewrite Hx. do 2 f_equal.
    rewrite Utf8Facts.decode_ignore_encode_chars by done.
    rewrite Utf8Facts.decode_ignore_stray by done.
    rewrite <- (app_nil_r (Utf8.encode_chars t2)).
    rewrite Utf8Facts.decode_ignore_encode_chars by done.
    by rewrite app_nil_r.
  - apply Utf8Facts.decode_replace_length.
Qed.

Lemma extract_text_ignores_undecodable_witness :
  extract_text Demo.online (lit "/data/bad.txt") = Ok ([97] ++ [98]).
Proof.
  destruct (extract_text_ignores_undecodable Demo.online (lit "/data/bad.txt")
              [97; 255; 98] eq_refl) as (_ & _ & Hdrop & _).
  - vm_compute. discriminate.
  - reflexivity.
  - apply (Hdrop [97] 255 [98]).
    + constructor; [unfold Utf8.scalar; lia|constructor].
    + right. lia.
    + constructor; [unfold Utf8.scalar; lia|constructor].
    + reflexivity.
Defined.

(** C3, as the specification words it, fails: the file [a 0xFF b] is read
    as ["ab"], with nothing at the position of the undecodable octet,
    where a decoding that replaces would have put U+FFFD. *)
Lemma extract_text_does_not_replace :
  Path_exists Demo.online (lit "/data/bad.txt") = true
  ∧ lower (Path_suffix Demo.online (lit "/data/bad.txt")) = lit ".txt"
  ∧ open_read Demo.online (lit "/data/bad.txt") = Ok [97; 255; 98]
  ∧ extract_text Demo.online (lit "/data/bad.txt") = Ok [97; 98]
  ∧ Utf8.decode_replace [97; 255; 98] = [97; 0xFFFD; 98]
  ∧ extract_text Demo.online (lit "/data/bad.txt")
    ≠ Ok (universal_newlines (Utf8.decode_replace [97; 255; 98])).
Proof.
  repeat split; try (vm_compute; reflexivity).
  vm_compute. discriminate.
Qed.

(** ** The fallback of the query stream *)

Lemma startswith_app needle post : startswith (needle ++ post) needle = true.
Proof.
  induction needle as [|c needle IH]; [by destruct post|].
  cbn [app startswith]. by rewrite Z.eqb_refl, IH.
Qed.

Lemma contains_app pre needle post :
  contains (pre ++ needle ++ post) needle = true.
Proof.
  induction pre as [|c pre IH].
  - cbn [app]. destruct (needle ++ post) eqn:E; cbn [contains];
      rewrite <- E, startswith_app; reflexivity.
  - cbn [app contains]. rewrite IH. apply orb_true_r.
Qed.

Lemma encode_chars_app a b :
  Utf8.encode_chars (a ++ b)
  = Utf8.encode_chars a ++ Utf8.encode_chars b.
Proof. apply bind_app. Qed.

(** When the index client or the embedding key is missing, the [try]
    block raises before anything is yielded. *)
Lemma answer_without_clients w prompt kb_id s pc s1 :
  get_pinecone w s = (Ok pc, s1) →
  pc = None ∨ truthy (OPENAI_API_KEY w) = false →
  answer w prompt kb_id s
  = (([], Raise (RuntimeError (lit "vector or embedding client missing"))), s1).
Proof.
  intros Hpc Hmiss. unfold answer, retrieve_context, bind at 1 2.
  rewrite Hpc. destruct Hmiss as [-> | Hkey]; [done|].
  destruct pc; [|done]. by rewrite Hkey.
Qed.

(** The fixed fragments are ASCII: their octets are their characters. *)
Lemma fixed_fragments :
  Utf8.encode (lit "Synthesizing an AuroraMind reply. ")
  = Ok (lit "Synthesizing an AuroraMind reply. ")
  ∧ Utf8.encode (lit "This stubbed AI service will echo your prompt back. ")
    = Ok (lit "This stubbed AI service will echo your prompt back. ")
  ∧ Utf8.encode (lit "Connect Pinecone and OpenAI to replace this path.")
    = Ok (lit "Connect Pinecone and OpenAI to replace this path.").
Proof. repeat split; vm_compute; reflexivity. Qed.

(** A literal of the source holds no surrogate. *)
Lemma lit_plain s : Forall (λ c, Utf8.is_surrogate c = false) (lit s).
Proof.
  unfold lit. apply Forall_fmap, Forall_forall. intros a _. simpl.
  pose proof (Ascii.N_ascii_bounded a). unfold Utf8.is_surrogate.
  destruct (Z.leb_spec 0xD800 (Z.of_N (Ascii.N_of_ascii a))); [lia|done].
Qed.

Lemma third_fragment prompt :
  Forall (λ c, Utf8.is_surrogate c = false) prompt →
  Utf8.encode (lit "Prompt: " ++ [34] ++ prompt ++ [34] ++ lit ". ")
  = Ok (lit "Prompt: " ++ [34] ++ Utf8.encode_chars prompt ++ [34]
        ++ lit ". ").
Proof.
  intros Hp. rewrite Utf8Facts.encode_plain.
  - rewrite !encode_chars_app. reflexivity.
  - repeat (apply Forall_app; split);
      auto using lit_plain.
Qed.

(** C7, as the code has it.  For a prompt that holds no lone surrogate:
    when the [try] block of the generator raises an [Exception], after the
    events [events], the stream goes on with the four fixed fragments and
    ends normally, each fragment yielded after a sleep of 120 ms and ended
    by a newline; this is the whole stream when the index client or the
    embedding key is missing; and the third fragment is [Prompt: "..."]
    around the prompt, so it contains the prompt verbatim, as text and as
    octets. *)
Theorem fallback_stream (w : World) (prompt kb_id : pystr) (s : State) :
  Forall (λ c, Utf8.is_surrogate c = false) prompt →
  let third := lit "Prompt: " ++ [34] ++ prompt ++ [34] ++ lit ". " in
  let third_octets :=
    lit "Prompt: " ++ [34] ++ Utf8.encode_chars prompt ++ [34] ++ lit ". " in
  let fallback :=
    [ Sleep 120;
      Yield (lit "Synthesizing an AuroraMind reply. " ++ [10]);
      Sleep 120;
      Yield (lit "This stubbed AI service will echo your prompt back. "
             ++ [10]);
      Sleep 120;
      Yield (third_octets ++ [10]);
      Sleep 120;
      Yield (lit "Connect Pinecone and OpenAI to replace this path."
             ++ [10]) ] in
  (∀ events exc s',
     answer w prompt kb_id s = ((events, Raise exc), s') →
     isinstance_Exception exc = true →
     token_stream w prompt kb_id s = ((events ++ fallback, Ok tt), s'))
  ∧ (∀ pc s1,
       get_pinecone w s = (Ok pc, s1) →
       pc = None ∨ truthy (OPENAI_API_KEY w) = false →
       token_stream w prompt kb_id s = ((fallback, Ok tt), s1))
  ∧ synthetic prompt !! 2%nat = Some third
  ∧ Utf8.encode third = Ok third_octets
  ∧ contains third prompt = true
  ∧ contains third_octets (Utf8.encode_chars prompt) = true.
Proof.
  intros Hp third third_octets fallback.
  assert (∀ events exc s',
            answer w prompt kb_id s = ((events, Raise exc), s') →
            isinstance_Exception exc = true →
            token_stream w prompt kb_id s = ((events ++ fallback, Ok tt), s'))
    as Hfall.
  { intros events exc s' Ha He.
    unfold token_stream. rewrite Ha, He.
    unfold synthetic. cbn [play].
    destruct fixed_fragments as (H1 & H2 & H4).
    rewrite H1, H2, (third_fragment prompt Hp), H4. reflexivity. }
  split; [exact Hfall|]. split; [|split; [done|split; [|split]]].
  - intros pc s1 Hpc Hmiss.
    apply (Hfall [] (RuntimeError (lit "vector or embedding client missing")));
      [|done].
    by apply answer_without_clients with (pc := pc).
  - by apply third_fragment.
  - unfold third. rewrite (app_assoc (lit "Prompt: ") [34]).
    apply contains_app.
  - unfold third_octets. rewrite (app_assoc (lit "Prompt: ") [34]).
    apply contains_app.
Qed.

Lemma fallback_stream_witness :
  token_stream Demo.offline (lit "AI") blank initial_state
  = (([ Sleep 120;
        Yield (lit "Synthesizing an AuroraMind reply. " ++ [10]);
        Sleep 120;
        Yield (lit "This stubbed AI service will echo your prompt back. "
               ++ [10]);
        Sleep 120;
        Yield ((lit "Prompt: " ++ [34] ++ Utf8.encode_chars (lit "AI")
                ++ [34] ++ lit ". ") ++ [10]);
        Sleep 120;
        Yield (lit "Connect Pinecone and OpenAI to replace this path."
               ++ [10]) ],
      Ok tt), initial_state).
Proof.
  destruct (fallback_stream Demo.offline (lit "AI") blank initial_state)
    as (_ & Hoff & _).
  - repeat constructor.
  - apply (Hoff None initial_state); [reflexivity|by left].
Defined.

(** C7, as the specification words it, fails on two counts.  The prompt
    ["AI"] occurs in three of the four fragments, not in exactly one: the
    second and the fourth fixed fragments contain it too.  And for a
    prompt that is a lone surrogate, which a JSON body can carry as an
    escape, encoding the third fragment raises inside the handler: the
    stream stops after two fragments with [UnicodeEncodeError]. *)
Lemma fallback_stream_not_as_specified :
  answer Demo.offline (lit "AI") blank initial_state
  = (([], Raise (RuntimeError (lit "vector or embedding client missing"))),
     initial_state)
  ∧ (λ piece, contains piece (lit "AI")) <$> synthetic (lit "AI")
    = [false; true; true; true]
  ∧ answer Demo.offline [0xD800] blank initial_state
    = (([], Raise (RuntimeError (lit "vector or embedding client missing"))),
       initial_state)
  ∧ token_stream Demo.offline [0xD800] blank initial_state
    = (([ Sleep 120;
          Yield (lit "Synthesizing an AuroraMind reply. " ++ [10]);
          Sleep 120;
          Yield (lit "This stubbed AI service will echo your prompt back. "
                 ++ [10]);
          Sleep 120 ],
        Raise (UnicodeEncodeError
                 (lit "Prompt: " ++ [34; 0xD800; 34] ++ lit ". ") 9 10)),
       initial_state).
Proof.
  repeat split; vm_compute; reflexivity.
Qed.

(** * Further properties of the module *)

(** ** The cached clients *)

(** X1. Once [get_pinecone] has returned a client, every later call
    returns that same client and leaves the state alone, whatever the
    environment holds and the constructor would do by then. *)
Theorem get_pinecone_cached (w w' : World) (s s1 : State) (pc : Pinecone) :
  get_pinecone w s = (Ok (Some pc), s1) →
  pc_client s1 = Some pc ∧ get_pinecone w' s1 = (Ok (Some pc), s1).
Proof.
  intros H.
  assert (pc_client s1 = Some pc) as Hc.
  { unfold get_pinecone, bind, get, ret, call, modify in H.
    repeat case_match; by simplify_eq. }
  split; [exact Hc|].
  unfold get_pinecone, bind, get, ret. by rewrite Hc.
Qed.

Lemma get_pinecone_cached_witness :
  pc_client (get_pinecone Demo.online initial_state).2
  = Some (mkPinecone (lit "pc-test"))
  ∧ get_pinecone Demo.offline (get_pinecone Demo.online initial_state).2
    = (Ok (Some (mkPinecone (lit "pc-test"))),
       (get_pinecone Demo.online initial_state).2).
Proof.
  apply (get_pinecone_cached Demo.online Demo.offline initial_state).
  vm_compute; reflexivity.
Defined.

(** X2. With no client cached: when [PINECONE_API_KEY] is unset or empty,
    [get_pinecone] returns [None] without raising; when the constructor
    raises, the exception goes to the caller; in both cases nothing is
    cached and the state is as before. *)
Theorem get_pinecone_unavailable (w : World) (s : State) :
  pc_client s = None →
  (environ w !! lit "PINECONE_API_KEY" = None
   ∨ environ w !! lit "PINECONE_API_KEY" = Some blank →
   get_pinecone w s = (Ok None, s))
  ∧ (∀ api_key e,
       environ w !! lit "PINECONE_API_KEY" = Some api_key →
       api_key ≠ blank →
       Pinecone_init w api_key = Raise e →
       get_pinecone w s = (Raise e, s)).
Proof.
  intros Hc. unfold get_pinecone, bind, get, ret, call. rewrite Hc. split.
  - by intros [-> | ->].
  - intros api_key e -> Hne ->. by destruct api_key.
Qed.

Lemma get_pinecone_unavailable_witness :
  get_pinecone Demo.offline initial_state = (Ok None, initial_state).
Proof.
  destruct (get_pinecone_unavailable Demo.offline initial_state eq_refl)
    as [Hnone _].
  apply Hnone. left. reflexivity.
Defined.

(** X3. [get_langchain_chain] under [lru_cache]: a call that returns a
    chain makes every later call return that chain with no further
    construction; a call that raises caches nothing. *)
Theorem get_langchain_chain_cached (w : World) (s s1 : State)
    (r : result Chain) :
  get_langchain_chain w s = (r, s1) →
  match r with
  | Ok chain => ∀ w', get_langchain_chain w' s1 = (Ok chain, s1)
  | Raise _ => s1 = s
  end.
Proof.
  unfold get_langchain_chain, bind, get, ret, call, modify. intros H.
  destruct (chain_cache s) as [c|] eqn:Hc.
  - simplify_eq. intros w'. by rewrite Hc.
  - destruct (chain_init w (OPENAI_MODEL w)); simplify_eq; [|done].
    intros w'. reflexivity.
Qed.

Lemma get_langchain_chain_cached_witness :
  get_langchain_chain Demo.offline
    (get_langchain_chain Demo.online initial_state).2
  = (Ok (mkChain (lit "gpt-4.1-mini")),
     (get_langchain_chain Demo.online initial_state).2).
Proof.
  apply (get_langchain_chain_cached Demo.online initial_state _
           (Ok (mkChain (lit "gpt-4.1-mini")))).
  vm_compute; reflexivity.
Defined.

(** ** Intake *)

(** X4. A payload with the three required fields is accepted: the answer
    echoes the submitted [document_id]; a record with the submitted
    fields, the status ["processing"], no note and the clock's reading is
    stored under that id; the title is the submitted one, or ["Untitled"]
    when it is absent or empty; and one background task, the ingestion of
    that id, is added after the tasks already there. *)
Theorem ingest_accepts (w : World) (payload : Payload) (tasks : list Task)
    (s : State) (doc col uri : pystr) :
  payload !! lit "document_id" = Some doc →
  payload !! lit "collection_id" = Some col →
  payload !! lit "storage_uri" = Some uri →
  ∃ ttl,
    ingest w payload tasks s
    = (Return (list_to_map [ (lit "status", lit "accepted");
                             (lit "document_id", doc) ]),
       tasks ++ [Task_process_ingestion doc],
       with_DOCUMENTS
         (insert doc {| document_id := doc; collection_id := col;
                        storage_uri := uri; title := ttl;
                        status := lit "processing"; note := None;
                        created_at := time_time w |}) s)
    ∧ (payload !! lit "title" = None ∨ payload !! lit "title" = Some blank →
       ttl = lit "Untitled")
    ∧ (∀ t, payload !! lit "title" = Some t → t ≠ blank → ttl = t).
Proof.
  intros Hd Hc Hu.
  exists (or_else (payload !! lit "title") (lit "Untitled")).
  split; [|split].
  - unfold ingest. simpl existsb. rewrite Hd, Hc, Hu. simpl.
    rewrite (lookup_total_correct _ _ _ Hd), (lookup_total_correct _ _ _ Hc),
      (lookup_total_correct _ _ _ Hu). reflexivity.
  - by intros [-> | ->].
  - intros t -> Hne. by destruct t.
Qed.

Lemma ingest_accepts_witness :
  ∃ ttl,
    ingest Demo.online (Demo.payload "d1" "kb" "/data/a.txt") []
      initial_state
    = (Return (list_to_map [ (lit "status", lit "accepted");
                             (lit "document_id", lit "d1") ]),
       [] ++ [Task_process_ingestion (lit "d1")],
       with_DOCUMENTS
         (insert (lit "d1")
            {| document_id := lit "d1"; collection_id := lit "kb";
               storage_uri := lit "/data/a.txt"; title := ttl;
               status := lit "processing"; note := None;
               created_at := time_time Demo.online |}) initial_state)
    ∧ (Demo.payload "d1" "kb" "/data/a.txt" !! lit "title" = None
       ∨ Demo.payload "d1" "kb" "/data/a.txt" !! lit "title" = Some blank →
       ttl = lit "Untitled")
    ∧ (∀ t, Demo.payload "d1" "kb" "/data/a.txt" !! lit "title" = Some t →
            t ≠ blank → ttl = t).
Proof.
  apply ingest_accepts; reflexivity.
Defined.

(** X5. Submitting a [document_id] again replaces its record: whatever
    status and note the stored record had, the record found afterwards is
    the new one, with the status ["processing"] and no note; the records
    of all other ids, the cached clients and the calls made on the index
    are untouched. *)
Theorem ingest_resubmission (w : World) (payload : Payload)
    (tasks tasks' : list Task) (s s' : State)
    (response : gmap pystr pystr) (doc : pystr) :
  payload !! lit "document_id" = Some doc →
  ingest w payload tasks s = (Return response, tasks', s') →
  (∃ r', DOCUMENTS s' !! doc = Some r'
         ∧ status r' = lit "processing" ∧ note r' = None
         ∧ Some (collection_id r') = payload !! lit "collection_id"
         ∧ Some (storage_uri r') = payload !! lit "storage_uri")
  ∧ (∀ k, k ≠ doc → DOCUMENTS s' !! k = DOCUMENTS s !! k)
  ∧ pc_client s' = pc_client s
  ∧ chain_cache s' = chain_cache s
  ∧ index_calls s' = index_calls s.
Proof.
  intros Hd Hin.
  destruct (payload !! lit "collection_id") as [col|] eqn:Hc.
  2: { rewrite ingest_rejects in Hin by auto. done. }
  destruct (payload !! lit "storage_uri") as [uri|] eqn:Hu.
  2: { rewrite ingest_rejects in Hin by auto. done. }
  destruct (ingest_accepted w payload tasks s doc col uri Hd Hc Hu)
    as (record & Hrun & _ & Hcol & Huri & Hst & Hnote).
  rewrite Hrun in Hin. simplify_eq. simpl.
  split; [|split; [|done]].
  - exists record. by rewrite lookup_insert_eq.
  - intros k Hne. by rewrite lookup_insert_ne.
Qed.

Lemma ingest_resubmission_witness :
  (∃ r', DOCUMENTS Demo.resubmitted !! lit "d1" = Some r'
         ∧ status r' = lit "processing" ∧ note r' = None
         ∧ Some (collection_id r')
           = Demo.payload "d1" "kb2" "/data/bad.txt" !! lit "collection_id"
         ∧ Some (storage_uri r')
           = Demo.payload "d1" "kb2" "/data/bad.txt" !! lit "storage_uri")
  ∧ (∀ k, k ≠ lit "d1" →
       DOCUMENTS Demo.resubmitted !! k
       = DOCUMENTS (Demo.ingested Demo.online "/data/a.txt") !! k)
  ∧ pc_client Demo.resubmitted
    = pc_client (Demo.ingested Demo.online "/data/a.txt")
  ∧ chain_cache Demo.resubmitted
    = chain_cache (Demo.ingested Demo.online "/data/a.txt")
  ∧ index_calls Demo.resubmitted
    = index_calls (Demo.ingested Demo.online "/data/a.txt").
Proof.
  apply (ingest_resubmission Demo.online
           (Demo.payload "d1" "kb2" "/data/bad.txt") []
           [Task_process_ingestion (lit "d1")]
           (Demo.ingested Demo.online "/data/a.txt") Demo.resubmitted
           (list_to_map [ (lit "status", lit "accepted");
                          (lit "document_id", lit "d1") ])
           (lit "d1")).
  - reflexivity.
  - vm_compute; reflexivity.
Defined.

(** ** What a run of the ingestion touches *)

(** X6. A run of [process_ingestion], however it ends, leaves every record
    stored under another id as it was, adds and removes no key, and on the
    record of its own id changes at most the status and the note: the ids,
    the location, the title and the creation time stay. *)
Theorem process_ingestion_touches_one_record (w : World) (doc : pystr)
    (s s' : State) (r : result unit) :
  process_ingestion w doc s = (r, s') →
  (∀ k, k ≠ doc → DOCUMENTS s' !! k = DOCUMENTS s !! k)
  ∧ dom (DOCUMENTS s') = dom (DOCUMENTS s)
  ∧ (∀ rec', DOCUMENTS s' !! doc = Some rec' →
       ∃ rec, DOCUMENTS s !! doc = Some rec
              ∧ document_id rec' = document_id rec
              ∧ collection_id rec' = collection_id rec
              ∧ storage_uri rec' = storage_uri rec
              ∧ title rec' = title rec
              ∧ created_at rec' = created_at rec).
Proof.
  intros Hrun.
  destruct (process_ingestion_documents _ _ _ _ _ Hrun)
    as [-> | (st & nt & _ & ->)].
  - split; [done|]. split; [done|]. intros rec' H. by exists rec'.
  - split; [|split].
    + intros k Hne. by rewrite !lookup_alter_ne.
    + by rewrite !dom_alter_L.
    + intros rec'. rewrite !lookup_alter_eq.
      destruct (DOCUMENTS s !! doc) as [rec|]; [|done].
      simpl. intros ?; simplify_eq. by exists rec.
Qed.

Lemma process_ingestion_touches_one_record_witness :
  (∀ k, k ≠ lit "d1" →
     DOCUMENTS (Demo.ingested Demo.online "/data/a.txt") !! k
     = DOCUMENTS (Demo.accepted "/data/a.txt") !! k)
  ∧ dom (DOCUMENTS (Demo.ingested Demo.online "/data/a.txt"))
    = dom (DOCUMENTS (Demo.accepted "/data/a.txt"))
  ∧ (∀ rec', DOCUMENTS (Demo.ingested Demo.online "/data/a.txt") !! lit "d1"
             = Some rec' →
       ∃ rec, DOCUMENTS (Demo.accepted "/data/a.txt") !! lit "d1" = Some rec
              ∧ document_id rec' = document_id rec
              ∧ collection_id rec' = collection_id rec
              ∧ storage_uri rec' = storage_uri rec
              ∧ title rec' = title rec
              ∧ created_at rec' = created_at rec).
Proof.
  apply (process_ingestion_touches_one_record Demo.online (lit "d1")
           (Demo.accepted "/data/a.txt")
           (Demo.ingested Demo.online "/data/a.txt") (Ok tt)).
  vm_compute; reflexivity.
Defined.

(** X7. With chunks in hand, a run that finds no embedding key, or no
    index client, ends with the status ["error"] and the note that names
    the two keys, and makes no call on the index. *)
Theorem missing_credentials_is_error (w : World) (s s1 : State) (k : pystr)
    (record : DocumentRecord) (chunks : list pystr) (pc : option Pinecone) :
  DOCUMENTS s !! k = Some record →
  chunked w record chunks →
  truthy (OPENAI_API_KEY w) = false ∨ embedder_built w →
  get_pinecone w s = (Ok pc, s1) →
  truthy (OPENAI_API_KEY w) = false ∨ pc = None →
  ∃ s',
    process_ingestion w k s = (Ok tt, s')
    ∧ DOCUMENTS s' !! k
      = Some (set_note
                (Some (lit "missing OPENAI_API_KEY or PINECONE_API_KEY for ingestion"))
                (set_status (lit "error") record))
    ∧ index_calls s' = index_calls s.
Proof.
  intros Hk Hch Hemb Hpc Hmiss.
  pose proof (raises_credentials w s record chunks pc s1 Hch Hemb Hpc Hmiss)
    as Hr.
  eexists. split; [|split].
  - by rewrite (process_ingestion_present _ _ _ _ Hk),
      (ingestion_steps_raises _ k _ _ _ _ Hr).
  - apply mark_lookup. by rewrite (stage_raises_frame _ _ _ _ _ Hr).
  - rewrite mark_index_calls. by apply get_pinecone_frame in Hpc as (_ & ? & _).
Qed.

Lemma missing_credentials_is_error_witness :
  ∃ s',
    process_ingestion Demo.offline (lit "d1") (Demo.accepted "/data/a.txt")
    = (Ok tt, s')
    ∧ DOCUMENTS s' !! lit "d1"
      = Some (set_note
                (Some (lit "missing OPENAI_API_KEY or PINECONE_API_KEY for ingestion"))
                (set_status (lit "error")
                   (Demo.record "/data/a.txt" "processing" None)))
    ∧ index_calls s' = index_calls (Demo.accepted "/data/a.txt").
Proof.
  apply (missing_credentials_is_error Demo.offline
           (Demo.accepted "/data/a.txt") (Demo.accepted "/data/a.txt")
           (lit "d1") (Demo.record "/data/a.txt" "processing" None)
           [lit "hel"; lit "lo world"] None).
  - reflexivity.
  - exists (lit "hello world").
    split; [vm_compute; reflexivity|split; [vm_compute; reflexivity|done]].
  - left. reflexivity.
  - reflexivity.
  - left. reflexivity.
Defined.

(** X8. An exception that is not an [Exception] (a [KeyboardInterrupt], a
    cancellation) raised by a stage is not caught: it leaves
    [process_ingestion], and the record keeps the status and the note it
    had, so a record being processed stays ["processing"]. *)
Theorem interrupted_run_stays_processing (w : World) (s s1 : State)
    (k : pystr) (record : DocumentRecord) (e : exception) :
  DOCUMENTS s !! k = Some record →
  stage_raises w s record e s1 →
  isinstance_Exception e = false →
  process_ingestion w k s = (Raise e, s1)
  ∧ DOCUMENTS s1 !! k = Some record.
Proof.
  intros Hk Hr He. split.
  - by rewrite (process_ingestion_present _ _ _ _ Hk),
      (ingestion_steps_raises _ k _ _ _ _ Hr), He.
  - by rewrite (stage_raises_frame _ _ _ _ _ Hr).
Qed.

Lemma interrupted_run_stays_processing_witness :
  process_ingestion Demo.interrupted (lit "d1") (Demo.accepted "/data/a.txt")
  = (Raise (LibraryError false (lit "KeyboardInterrupt")),
     Demo.accepted "/data/a.txt")
  ∧ DOCUMENTS (Demo.accepted "/data/a.txt") !! lit "d1"
    = Some (Demo.record "/data/a.txt" "processing" None).
Proof.
  apply interrupted_run_stays_processing.
  - reflexivity.
  - apply (raises_chunking _ _ _ (lit "hello world")); reflexivity.
  - reflexivity.
Defined.

(** ** The upsert *)

Lemma upsert_loop_Raise w emb col doc pre c post e : ∀ i acc,
  Forall (λ c, ∃ v, embed_query w emb c = Ok v) pre →
  embed_query w emb c = Raise e →
  upsert_loop w emb col doc i acc (pre ++ c :: post) = Raise e.
Proof.
  induction pre as [|c0 pre IH]; intros i acc Hpre He; cbn [app upsert_loop].
  - by rewrite He.
  - inversion_clear Hpre as [|? ? [v Hv] Hpre']. rewrite Hv. cbn [and_then].
    by apply IH.
Qed.

(** X9. Every chunk is embedded before anything is written: when the
    embedding of some chunk raises, [upsert_to_pinecone] raises that
    exception, the one of the first chunk that fails, and the index has
    received no call, not even for the chunks before it. *)
Theorem embedding_failure_writes_nothing (w : World) (pc : Pinecone)
    (col doc : pystr) (emb : OpenAIEmbeddings) (s : State)
    (pre post : list pystr) (c : pystr) (e : exception) :
  Index_init w pc (VECTOR_INDEX w) = Ok tt →
  Forall (λ c, ∃ v, embed_query w emb c = Ok v) pre →
  embed_query w emb c = Raise e →
  upsert_to_pinecone w pc (pre ++ c :: post) col doc emb s = (Raise e, s).
Proof.
  intros Hidx Hpre He. unfold upsert_to_pinecone, bind, call.
  by rewrite Hidx, (upsert_loop_Raise _ _ _ _ _ _ _ _ _ _ Hpre He).
Qed.

Lemma embedding_failure_writes_nothing_witness :
  upsert_to_pinecone Demo.flaky_embedder (mkPinecone (lit "pc-test"))
    ([lit "hel"] ++ lit "lo world" :: []) (lit "kb") (lit "d1")
    (embedder_of Demo.flaky_embedder) initial_state
  = (Raise (LibraryError true (lit "rate limit reached")), initial_state).
Proof.
  apply embedding_failure_writes_nothing.
  - reflexivity.
  - constructor; [|constructor]. eexists. vm_compute. reflexivity.
  - vm_compute; reflexivity.
Defined.

(** ** Vector ids *)

Lemma lit_cons a s :
  lit (String a s) = Z.of_N (Ascii.N_of_ascii a) :: lit s.
Proof. reflexivity. Qed.

Lemma lit_inj s1 s2 : lit s1 = lit s2 → s1 = s2.
Proof.
  revert s2. induction s1 as [|a s1 IH]; intros [|b s2]; try done.
  rewrite !lit_cons. intros H. injection H as Hab Hs.
  apply N2Z.inj in Hab.
  rewrite <- (Ascii.ascii_N_embedding a), <- (Ascii.ascii_N_embedding b), Hab.
  f_equal. by apply IH.
Qed.

Lemma to_uint_not_Nil n : Nat.to_uint n ≠ Decimal.Nil.
Proof.
  intros H. pose proof (Unsigned.of_to n) as Hn. rewrite H in Hn.
  simpl in Hn. subst n. done.
Qed.

(** [str] of two different numbers are two different strings. *)
Lemma str_int_inj i j : str_int i = str_int j → i = j.
Proof.
  unfold str_int. intros H. apply lit_inj in H.
  apply Unsigned.to_uint_inj.
  pose proof (NilZero.usu _ (to_uint_not_Nil i)) as Hi.
  pose proof (NilZero.usu _ (to_uint_not_Nil j)) as Hj.
  rewrite H in Hi. congruence.
Qed.

(** [str] of a number is made of decimal digits. *)
Lemma str_int_digits n : Forall (λ c, 48 ≤ c ≤ 57) (str_int n).
Proof.
  unfold str_int.
  assert (∀ d, Forall (λ c, 48 ≤ c ≤ 57) (lit (NilEmpty.string_of_uint d)))
    as Hd.
  { induction d; cbn [NilEmpty.string_of_uint]; rewrite ?lit_cons;
      try (constructor; [vm_compute; split; discriminate|assumption]).
    constructor. }
  destruct (Nat.to_uint n) eqn:E; [by apply to_uint_not_Nil in E|..].
  all: match goal with
       | |- context [NilZero.string_of_uint ?d] => exact (Hd d)
       end.
Qed.

(** The first occurrence of [x] cuts a list in one way only. *)
Lemma first_occurrence_unique (x : Z) (p1 p2 q1 q2 : list Z) :
  x ∉ p1 → x ∉ p2 → p1 ++ x :: q1 = p2 ++ x :: q2 → p1 = p2 ∧ q1 = q2.
Proof.
  revert p2. induction p1 as [|a p1 IH]; intros [|b p2] H1 H2 H;
    simplify_eq/=.
  - done.
  - exfalso. apply H2. by left.
  - exfalso. apply H1. by left.
  - destruct (IH p2) as [-> ->]; try done.
    + intros ?. apply H1. by right.
    + intros ?. apply H2. by right.
Qed.

(** A decimal numeral holds no dash. *)
Lemma digits_have_no_dash n : 45 ∉ rev (str_int n).
Proof.
  rewrite list_elem_of_In, <- in_rev, <- list_elem_of_In.
  intros Hin. pose proof (str_int_digits n) as Hall.
  rewrite Forall_forall in Hall. apply Hall in Hin. lia.
Qed.

(** X10. The id of a vector tells its document and its chunk: two vectors
    with the same id ["{doc_id}-chunk-{i}"] come from the same document and
    have the same index, whatever the document ids are, also when one of
    them itself contains ["-chunk-"] or ends with digits. *)
Theorem vector_id_injective (col col' doc doc' : pystr) (i j : nat)
    (chunk chunk' : pystr) (values values' : embedding) :
  vec_id (vector_of col doc i chunk values)
  = vec_id (vector_of col' doc' j chunk' values') →
  doc = doc' ∧ i = j.
Proof.
  cbn [vec_id vector_of]. intros H.
  change (lit "-chunk-") with (lit "-chunk" ++ [45]) in H.
  assert (∀ a d : pystr, a ++ (lit "-chunk" ++ [45]) ++ d
                         = (a ++ lit "-chunk") ++ 45 :: d) as Hre.
  { intros a d. by rewrite <- !app_assoc. }
  rewrite !Hre in H. apply (f_equal (@rev Z)) in H.
  rewrite !rev_app_distr in H. cbn [rev] in H.
  rewrite <- !app_assoc in H. cbn [app] in H.
  apply first_occurrence_unique in H as [Hd Hdoc];
    [|apply digits_have_no_dash..].
  apply rev_inj in Hd. apply str_int_inj in Hd.
  apply app_inv_head in Hdoc. by apply rev_inj in Hdoc.
Qed.

Lemma vector_id_injective_witness :
  lit "d1" = lit "d1" ∧ 1%nat = 1%nat.
Proof.
  apply (vector_id_injective (lit "kb") (lit "kb2") (lit "d1") (lit "d1") 1 1
           (lit "hel") (lit "lo") [3] [2]).
  reflexivity.
Defined.

(** X11. The vectors of one upsert are as many as the chunks and have
    pairwise different ids: no vector of a call replaces another one of
    the same call in the index. *)
Theorem upserted_ids_distinct (w : World) (emb : OpenAIEmbeddings)
    (col doc : pystr) (chunks : list pystr) (vectors : list Vector) :
  upsert_loop w emb col doc 0 [] chunks = Ok vectors →
  length vectors = length chunks ∧ NoDup (vec_id <$> vectors).
Proof.
  intros H. apply upsert_loop_Ok in H as (embs & Hall & ->).
  pose proof (Forall2_length _ _ _ Hall) as Hlen. cbn [app]. split.
  - by rewrite length_imap, length_zip, <- Hlen, Nat.min_id.
  - apply NoDup_alt. intros i j id.
    rewrite !list_lookup_fmap, !list_lookup_imap.
    destruct (zip chunks embs !! i) as [[c1 e1]|]; [|done].
    destruct (zip chunks embs !! j) as [[c2 e2]|]; [|done].
    intros [= <-] [= Hj]. cbn [vec_id vector_of fst snd] in Hj.
    apply app_inv_head, (app_inv_head (lit "-chunk-")) in Hj.
    by apply str_int_inj.
Qed.

Lemma upserted_ids_distinct_witness :
  length [ vector_of (lit "kb") (lit "d1") 0 (lit "hel") [3];
           vector_of (lit "kb") (lit "d1") 1 (lit "lo world") [8] ]
  = length [lit "hel"; lit "lo world"]
  ∧ NoDup (vec_id <$>
             [ vector_of (lit "kb") (lit "d1") 0 (lit "hel") [3];
               vector_of (lit "kb") (lit "d1") 1 (lit "lo world") [8] ]).
Proof.
  apply (upserted_ids_distinct Demo.online (embedder_of Demo.online)
           (lit "kb") (lit "d1")).
  vm_compute; reflexivity.
Defined.

(** ** Retrieval *)

Lemma context_loop_Ok col matches : ∀ contexts sources found,
  context_loop col contexts sources matches = Ok found →
  found.1 = contexts ++ (match_text <$> matches)
  ∧ length found.2 = (length sources + length matches)%nat.
Proof.
  induction matches as [|m matches IH]; intros contexts sources found H;
    cbn [context_loop] in H.
  - simplify_eq. cbn. by rewrite app_nil_r, Nat.add_0_r.
  - unfold and_then in H. unfold match_text at 1. cbn [fmap list_fmap].
    destruct (match_metadata m) as [metadata|]; [|done].
    destruct (match match_score m with
              | Some x => _ | None => _ end) as [score|]; [|done].
    apply IH in H as [-> ->]. rewrite <- app_assoc, length_app. cbn.
    split; [|lia]. by destruct metadata.
Qed.

(** X12. When [retrieve_context] returns, the query was embedded, the
    index named by [PINECONE_INDEX_NAME] was asked for the 5 nearest
    vectors of the namespace [collection_id], the context is the texts of
    the matches in the order of the answer, joined by blank lines, a match
    with no metadata or no text giving an empty text, and there is one
    source per match. *)
Theorem retrieve_context_joins_matches (w : World) (query col : pystr)
    (s s' : State) (context : pystr) (sources : list Source) :
  retrieve_context w query col s = (Ok (context, sources), s') →
  ∃ q_emb res matches,
    embed_query w (embedder_of w) query = Ok q_emb
    ∧ index_query w (VECTOR_INDEX w) q_emb 5 col = Ok res
    ∧ (res = ResponseObject matches ∨ res = ResponseMapping (Some matches))
    ∧ context = join [10; 10] (match_text <$> matches)
    ∧ length sources = length matches.
Proof.
  unfold retrieve_context, bind at 1. intros H.
  destruct (get_pinecone w s) as [[[pc|]|] s1]; try done.
  destruct (truthy (OPENAI_API_KEY w)); [|done]. cbn [negb] in H.
  unfold bind, call, ret, raise in H.
  destruct (Index_init w pc (VECTOR_INDEX w)); [|done].
  destruct (OpenAIEmbeddings_init w _ _); [|done].
  fold (embedder_of w) in H.
  destruct (embed_query w (embedder_of w) query) as [q_emb|] eqn:Hq; [|done].
  destruct (index_query w (VECTOR_INDEX w) q_emb 5 col) as [res|] eqn:Hres;
    [|done].
  assert (∃ matches,
            (res = ResponseObject matches
             ∨ res = ResponseMapping (Some matches))
            ∧ ∃ found, context_loop col [] [] matches = Ok found
                       ∧ context = join [10; 10] found.1
                       ∧ sources = found.2) as (matches & Hm & found & Hl & -> & ->).
  { destruct res as [ms|[ms|]]; [| |done].
    - exists ms. split; [by left|].
      destruct (context_loop col [] [] ms) as [found|]; [|done].
      simplify_eq. eauto.
    - exists ms. split; [by right|].
      destruct (context_loop col [] [] ms) as [found|]; [|done].
      simplify_eq. eauto. }
  apply context_loop_Ok in Hl as [-> Hlen].
  exists q_emb, res, matches. by repeat split.
Qed.

(** X13. What [upsert_to_pinecone] writes is what [retrieve_context]
    reads: for any selection of stored vectors that the index gives back
    as matches, the loop over the matches recovers the text of each chunk
    as its context and the collection, the document and the chunk id as
    its source. *)
Theorem upserted_metadata_is_read_back (col0 col doc : pystr)
    (score : number) (items : list (nat * pystr * embedding)) :
  context_loop col0 [] []
    ((λ it, match_of_vector score (vector_of col doc it.1.1 it.1.2 it.2))
     <$> items)
  = Ok ((λ it, it.1.2) <$> items,
        (λ it, {| source_collection_id := col;
                  source_document_id := doc;
                  source_chunk_id := lit "chunk-" ++ str_int it.1.1;
                  source_score := ScoreFloat score |}) <$> items).
Proof.
  assert (∀ contexts sources,
            context_loop col0 contexts sources
              ((λ it, match_of_vector score
                        (vector_of col doc it.1.1 it.1.2 it.2)) <$> items)
            = Ok (contexts ++ ((λ it, it.1.2) <$> items),
                  sources ++
                  ((λ it, {| source_collection_id := col;
                             source_document_id := doc;
                             source_chunk_id := lit "chunk-" ++ str_int it.1.1;
                             source_score := ScoreFloat score |}) <$> items)))
    as Hgen; [|apply (Hgen [] [])].
  induction items as [|[[i chunk] e] items IH]; intros contexts sources.
  - cbn. by rewrite !app_nil_r.
  - cbn [fmap list_fmap context_loop match_of_vector match_metadata
         match_score and_then default vector_of vec_metadata fst snd].
    unfold id.
    repeat match goal with
      | |- context [?m !! lit "text"] =>
          replace (m !! lit "text") with (Some chunk)
            by (vm_compute; reflexivity)
      | |- context [?m !! lit "collection_id"] =>
          replace (m !! lit "collection_id") with (Some col)
            by (vm_compute; reflexivity)
      | |- context [?m !! lit "document_id"] =>
          replace (m !! lit "document_id") with (Some doc)
            by (vm_compute; reflexivity)
      | |- context [?m !! lit "chunk_id"] =>
          replace (m !! lit "chunk_id")
            with (Some (lit "chunk-" ++ str_int i))
            by (vm_compute; reflexivity)
      end.
    cbn [default]. rewrite IH, <- !app_assoc. reflexivity.
Qed.

Lemma retrieve_context_joins_matches_witness :
  ∃ q_emb res matches,
    embed_query Demo.stocked (embedder_of Demo.stocked) (lit "hi") = Ok q_emb
    ∧ index_query Demo.stocked (VECTOR_INDEX Demo.stocked) q_emb 5 (lit "kb")
      = Ok res
    ∧ (res = ResponseObject matches ∨ res = ResponseMapping (Some matches))
    ∧ lit "hel" ++ [10; 10] = join [10; 10] (match_text <$> matches)
    ∧ length [ {| source_collection_id := lit "kb";
                  source_document_id := lit "d1";
                  source_chunk_id := lit "chunk-0";
                  source_score := ScoreFloat 9 |};
               {| source_collection_id := lit "kb";
                  source_document_id := blank;
                  source_chunk_id := blank;
                  source_score := ScoreDefault |} ]
      = length matches.
Proof.
  apply (retrieve_context_joins_matches Demo.stocked (lit "hi") (lit "kb")
           initial_state
           (with_pc_client (Some (mkPinecone (lit "pc-test"))) initial_state)).
  vm_compute; reflexivity.
Defined.

(** ** The query stream *)

Lemma retrieve_context_calls w query col s r s' :
  retrieve_context w query col s = (r, s') →
  index_calls s' = index_calls s.
Proof.
  unfold retrieve_context, bind at 1. intros H.
  destruct (get_pinecone w s) as [[pc|e] s1] eqn:Hpc;
    apply get_pinecone_frame in Hpc as (_ & Hc & _); [|by simplify_eq].
  rewrite <- Hc. clear Hc s.
  unfold bind, call, raise, ret in H.
  repeat case_match; by simplify_eq.
Qed.

Lemma get_langchain_chain_calls w s r s' :
  get_langchain_chain w s = (r, s') → index_calls s' = index_calls s.
Proof.
  unfold get_langchain_chain, bind, get, call, modify, ret. intros H.
  repeat case_match; by simplify_eq.
Qed.

Lemma answer_calls w prompt kb_id s out s' :
  answer w prompt kb_id s = (out, s') → index_calls s' = index_calls s.
Proof.
  unfold answer, bind at 1. intros H.
  destruct (retrieve_context w prompt _ s) as [[found|e] s1] eqn:Hr;
    apply retrieve_context_calls in Hr; [|by simplify_eq].
  unfold bind, ret in H.
  destruct (get_langchain_chain w s1) as [[chain|e] s2] eqn:Hc;
    apply get_langchain_chain_calls in Hc; [|simplify_eq; congruence].
  destruct (chain_astream w chain prompt found.1). simplify_eq. congruence.
Qed.

(** X14. Answering a query writes nothing: however the generator ends,
    with an answer, with the fallback or with an exception, the status
    map is as it was and the vector index has received no upsert. *)
Theorem query_writes_nothing (w : World) (prompt kb_id : pystr)
    (s s' : State) (out : Stream) :
  token_stream w prompt kb_id s = (out, s') →
  DOCUMENTS s' = DOCUMENTS s ∧ index_calls s' = index_calls s.
Proof.
  intros H. split; [by eapply token_stream_frame|].
  unfold token_stream in H.
  destruct (answer w prompt kb_id s) as [[events [[]|exc]] s1] eqn:Ha;
    apply answer_calls in Ha; [by simplify_eq|].
  destruct (isinstance_Exception exc); [|by simplify_eq].
  destruct (play (synthetic prompt)). by simplify_eq.
Qed.

Lemma query_writes_nothing_witness :
  DOCUMENTS (token_stream Demo.online (lit "hi") blank
               (Demo.ingested Demo.online "/data/a.txt")).2
  = DOCUMENTS (Demo.ingested Demo.online "/data/a.txt")
  ∧ index_calls (token_stream Demo.online (lit "hi") blank
                   (Demo.ingested Demo.online "/data/a.txt")).2
    = index_calls (Demo.ingested Demo.online "/data/a.txt").
Proof.
  apply (query_writes_nothing Demo.online (lit "hi") blank _ _
           (token_stream Demo.online (lit "hi") blank
              (Demo.ingested Demo.online "/data/a.txt")).1).
  by destruct (token_stream _ _ _ _).
Defined.

Lemma stream_chunks_plain chunks stop :
  Forall (Forall (λ c, Utf8.is_surrogate c = false)) chunks →
  stream_chunks chunks stop
  = (yields chunks, match stop with Some e => Raise e | None => Ok tt end).
Proof.
  induction 1 as [|chunk chunks Hc _ IH]; [done|].
  cbn [stream_chunks]. by rewrite (Utf8Facts.encode_plain _ Hc), IH.
Qed.

Lemma answer_streams w prompt kb_id s context sources s1 chain s2 chunks stop :
  retrieve_context w prompt (or_else (Some kb_id) (lit "kb-default")) s
  = (Ok (context, sources), s1) →
  get_langchain_chain w s1 = (Ok chain, s2) →
  chain_astream w chain prompt context = (chunks, stop) →
  answer w prompt kb_id s = (stream_chunks chunks stop, s2).
Proof.
  intros Hr Hc Ha. unfold answer, bind at 1. rewrite Hr.
  unfold bind, ret. rewrite Hc. cbn [fst]. by rewrite Ha.
Qed.

(** X15. When retrieval and the chain go through and no fragment of the
    chain holds a surrogate code point, the stream is the answer and
    nothing else: the chain is asked the prompt as question with the
    retrieved context, each of its fragments goes out in order as its
    UTF-8 octets followed by a newline, with no sleep and none of the
    fallback fragments, and the stream ends normally. *)
Theorem answer_stream (w : World) (prompt kb_id : pystr) (s s1 s2 : State)
    (context : pystr) (sources : list Source) (chain : Chain)
    (chunks : list pystr) :
  retrieve_context w prompt (or_else (Some kb_id) (lit "kb-default")) s
  = (Ok (context, sources), s1) →
  get_langchain_chain w s1 = (Ok chain, s2) →
  chain_astream w chain prompt context = (chunks, None) →
  Forall (Forall (λ c, Utf8.is_surrogate c = false)) chunks →
  token_stream w prompt kb_id s = ((yields chunks, Ok tt), s2).
Proof.
  intros Hr Hc Ha Hplain. unfold token_stream.
  by rewrite (answer_streams _ _ _ _ _ _ _ _ _ _ _ Hr Hc Ha),
    (stream_chunks_plain _ _ Hplain).
Qed.

Lemma answer_stream_witness :
  token_stream Demo.online (lit "hi") blank initial_state
  = ((yields [lit "Hello"; lit " there"], Ok tt),
     (token_stream Demo.online (lit "hi") blank initial_state).2).
Proof.
  apply (answer_stream Demo.online (lit "hi") blank initial_state
           (retrieve_context Demo.online (lit "hi") (lit "kb-default")
              initial_state).2 _ blank [] (mkChain (lit "gpt-4.1-mini"))).
  - vm_compute; reflexivity.
  - vm_compute; reflexivity.
  - reflexivity.
  - repeat constructor.
Defined.

(** X16. When the chain breaks in the middle of an answer with an
    [Exception], what was already sent stays sent and the canned answer
    follows it: the stream is the fragments yielded before the failure,
    then the four fallback fragments with their sleeps, and it ends
    normally. *)
Theorem broken_answer_then_fallback (w : World) (prompt kb_id : pystr)
    (s s1 s2 : State) (context : pystr) (sources : list Source)
    (chain : Chain) (chunks : list pystr) (exc : exception) :
  retrieve_context w prompt (or_else (Some kb_id) (lit "kb-default")) s
  = (Ok (context, sources), s1) →
  get_langchain_chain w s1 = (Ok chain, s2) →
  chain_astream w chain prompt context = (chunks, Some exc) →
  isinstance_Exception exc = true →
  Forall (Forall (λ c, Utf8.is_surrogate c = false)) chunks →
  Forall (λ c, Utf8.is_surrogate c = false) prompt →
  token_stream w prompt kb_id s
  = ((yields chunks ++ fallback_events prompt, Ok tt), s2).
Proof.
  intros Hr Hc Ha He Hplain Hp. unfold token_stream.
  rewrite (answer_streams _ _ _ _ _ _ _ _ _ _ _ Hr Hc Ha),
    (stream_chunks_plain _ _ Hplain), He.
  unfold synthetic. cbn [play].
  destruct fixed_fragments as (H1 & H2 & H4).
  rewrite H1, H2, (third_fragment prompt Hp), H4. reflexivity.
Qed.

Lemma broken_answer_then_fallback_witness :
  token_stream Demo.broken_chain (lit "hi") blank initial_state
  = ((yields [lit "Hello"] ++ fallback_events (lit "hi"), Ok tt),
     (token_stream Demo.broken_chain (lit "hi") blank initial_state).2).
Proof.
  apply (broken_answer_then_fallback Demo.broken_chain (lit "hi") blank
           initial_state
           (retrieve_context Demo.broken_chain (lit "hi") (lit "kb-default")
              initial_state).2 _ blank [] (mkChain (lit "gpt-4.1-mini"))
           [lit "Hello"] (LibraryError true (lit "connection reset"))).
  - vm_compute; reflexivity.
  - vm_compute; reflexivity.
  - reflexivity.
  - reflexivity.
  - repeat constructor.
  - repeat constructor.
Defined.

(** ** Extraction *)

Lemma page_texts_Ok (pages : list (result (option pystr)))
    (texts : list (option pystr)) :
  Forall2 (λ page t, page = Ok t) pages texts →
  page_texts pages = Ok ((λ t, or_else t blank) <$> texts).
Proof.
  induction 1 as [|page t pages texts -> _ IH]; [done|].
  cbn [page_texts and_then]. by rewrite IH.
Qed.

Lemma page_texts_Raise (pre : list (option pystr)) (e : exception)
    (post : list (result (option pystr))) :
  page_texts ((Ok <$> pre) ++ Raise e :: post) = Raise e.
Proof.
  induction pre as [|t pre IH]; [done|].
  cbn [fmap list_fmap app page_texts and_then]. by rewrite IH.
Qed.

(** X17. For an existing path whose suffix is [.pdf] in any letter case,
    the file is read as a PDF and never as text: the result is the text
    of the pages in order, joined by newlines, a page with no text or an
    empty text counting as an empty line; and when the extraction of a
    page raises, [extract_text] raises that exception, the one of the
    first such page. *)
Theorem extract_text_pdf (w : World) (path : pystr)
    (pages : list (result (option pystr))) :
  Path_exists w path = true →
  lower (Path_suffix w path) = lit ".pdf" →
  PdfReader w path = Ok pages →
  (∀ texts, Forall2 (λ page t, page = Ok t) pages texts →
     extract_text w path = Ok (join [10] ((λ t, or_else t blank) <$> texts)))
  ∧ (∀ pre e post, pages = (Ok <$> pre) ++ Raise e :: post →
       extract_text w path = Raise e).
Proof.
  intros Hex Hsuf Hpdf.
  assert (extract_text w path
          = (let? texts := page_texts pages in Ok (join [10] texts))) as Hx.
  { unfold extract_text. rewrite Hex. cbn [negb].
    rewrite bool_decide_eq_true_2 by done. by rewrite Hpdf. }
  split.
  - intros texts Hall. by rewrite Hx, (page_texts_Ok _ _ Hall).
  - intros pre e post ->. by rewrite Hx, page_texts_Raise.
Qed.

Lemma extract_text_pdf_witness :
  extract_text Demo.online (lit "/data/scan.PDF")
  = Ok (join [10] ((λ t, or_else t blank) <$> [Some (lit "page one"); None])).
Proof.
  destruct (extract_text_pdf Demo.online (lit "/data/scan.PDF")
              [Ok (Some (lit "page one")); Ok None] eq_refl eq_refl eq_refl)
    as [Hall _].
  apply Hall. repeat constructor.
Defined.

Lemma universal_newlines_no_cr s : 13 ∉ universal_newlines s.
Proof.
  induction s as [s IH] using (induction_ltof1 _ (@length Z)).
  unfold ltof in IH.
  destruct s as [|c r]; [by intros ?%elem_of_nil|].
  cbn [universal_newlines].
  destruct (Z.eqb_spec c 13) as [->|Hc].
  - destruct r as [|c' r'].
    + intros [?|?%elem_of_nil]%elem_of_cons; done.
    + destruct (c' =? 10).
      * intros [?|H]%elem_of_cons; [done|].
        revert H. apply IH. cbn. lia.
      * intros [?|H]%elem_of_cons; [done|].
        revert H. apply IH. cbn. lia.
  - intros [?|H]%elem_of_cons; [done|].
    revert H. apply IH. cbn. lia.
Qed.

Lemma universal_newlines_line l t :
  no_eol l → universal_newlines (l ++ t) = l ++ universal_newlines t.
Proof.
  induction 1 as [|c l [_ Hc] _ IH]; [done|].
  cbn [app universal_newlines].
  destruct (Z.eqb_spec c 13); [done|]. by rewrite IH.
Qed.

Lemma universal_newlines_translated lines last :
  well_split lines last →
  universal_newlines (terminated lines last) = translated lines last.
Proof.
  induction lines as [|[l e] rest IH]; cbn [well_split terminated translated].
  - intros Hlast.
    rewrite <- (app_nil_r last) at 1.
    rewrite (universal_newlines_line _ _ Hlast). apply app_nil_r.
  - intros (Hl & He & Hrest). specialize (IH Hrest).
    rewrite (universal_newlines_line _ _ Hl). f_equal.
    destruct e; cbn [eol_chars app universal_newlines Z.eqb Pos.eqb].
    + by rewrite IH.
    + specialize (He eq_refl). rewrite <- IH.
      destruct (terminated rest last) as [|c' r']; [done|].
      destruct (Z.eqb_spec c' 10) as [->|_]; done.
    + by rewrite IH.
Qed.

(** Every text is made of lines in exactly this sense. *)
Lemma well_split_exists s :
  ∃ lines last, s = terminated lines last ∧ well_split lines last.
Proof.
  remember (length s) as n eqn:Hn.
  revert s Hn. induction (lt_wf n) as [n _ IH]. intros s ->.
  destruct s as [|c r]; [by exists [], []; split; [|constructor]|].
  destruct (Z.eqb_spec c 10) as [->|Hlf].
  { destruct (IH (length r) ltac:(cbn; lia) r eq_refl)
      as (ls & last & -> & Hw).
    exists (([], LF) :: ls), last. split; [done|].
    cbn. split; [constructor|]. by split. }
  destruct (Z.eqb_spec c 13) as [->|Hcr].
  { destruct r as [|c' r'].
    - exists [([], CR)], []. split; [done|].
      cbn. split; [constructor|]. split; [done|constructor].
    - destruct (Z.eqb_spec c' 10) as [->|Hc'].
      + destruct (IH (length r') ltac:(cbn; lia) r' eq_refl)
          as (ls & last & -> & Hw).
        exists (([], CRLF) :: ls), last. split; [done|].
        cbn. split; [constructor|]. by split.
      + destruct (IH (length (c' :: r')) ltac:(cbn; lia) (c' :: r') eq_refl)
          as (ls & last & Heq & Hw).
        exists (([], CR) :: ls), last. split; [cbn; by rewrite <- Heq|].
        cbn. split; [constructor|]. split; [|done].
        intros _. rewrite <- Heq. cbn. congruence. }
  destruct (IH (length r) ltac:(cbn; lia) r eq_refl)
    as (ls & last & -> & Hw).
  destruct ls as [|[l e] ls].
  - exists [], (c :: last). split; [done|]. cbn in *. by constructor.
  - exists ((c :: l, e) :: ls), last. split; [done|].
    cbn in *. destruct Hw as (Hl & He & Hw).
    split; [by constructor|]. by split.
Qed.

(** X18. The text extracted from a file that is not a PDF is the decoded
    file with its line terminators translated.  The decoded file is made
    of lines, each ended by ["\n"], ["\r"] or ["\r\n"], and of a last
    line with no terminator; the text extracted is these same lines in
    the same order, each ended by ["\n"], and the same last line.  No
    character of a line is lost, every terminator is kept as one ["\n"],
    and the text holds no carriage return. *)
Theorem extracted_text_newlines (w : World) (path : pystr) (bs : pybytes) :
  Path_exists w path = true →
  lower (Path_suffix w path) ≠ lit ".pdf" →
  open_read w path = Ok bs →
  (∃ lines last, Utf8.decode_ignore bs = terminated lines last
                 ∧ well_split lines last)
  ∧ (∀ lines last,
       Utf8.decode_ignore bs = terminated lines last →
       well_split lines last →
       extract_text w path = Ok (translated lines last)
       ∧ 13 ∉ translated lines last).
Proof.
  intros Hex Hsuf Hopen. split; [apply well_split_exists|].
  intros lines last Hdec Hw.
  assert (extract_text w path
          = Ok (universal_newlines (Utf8.decode_ignore bs))) as ->.
  { unfold extract_text. rewrite Hex. cbn [negb].
    rewrite bool_decide_eq_false_2 by done. unfold and_then.
    by rewrite Hopen. }
  rewrite Hdec, (universal_newlines_translated _ _ Hw). split; [done|].
  rewrite <- (universal_newlines_translated _ _ Hw).
  apply universal_newlines_no_cr.
Qed.

Lemma extracted_text_newlines_witness :
  extract_text Demo.online (lit "/data/dos.txt")
  = Ok (translated [([97], CRLF); ([98], CR); ([99], LF)] [])
  ∧ 13 ∉ translated [([97], CRLF); ([98], CR); ([99], LF)] [].
Proof.
  destruct (extracted_text_newlines Demo.online (lit "/data/dos.txt")
              [97; 13; 10; 98; 13; 99; 10]) as [_ H].
  - reflexivity.
  - vm_compute. discriminate.
  - vm_compute; reflexivity.
  - apply (H [([97], CRLF); ([98], CR); ([99], LF)] []).
    + vm_compute; reflexivity.
    + cbn. repeat split; try discriminate; repeat constructor; lia.
Defined.

(** ** From a request to a finished run *)




(** ** The service over time *)

Lemma step_dom sv sv' :
  step sv sv' → dom (DOCUMENTS (state sv)) ⊆ dom (DOCUMENTS (state sv')).
Proof.
  destruct 1 as [w payload sv response tasks s' Hin
                |w [doc] before after sv r s' Hp Hrun
                |w prompt kb_id sv out s' Hq]; simpl.
  - destruct (ingest_cases w payload [] (state sv))
      as [Hbad|(doc & record & resp & Hok & _)].
    + rewrite Hbad in Hin. by simplify_eq.
    + rewrite Hok in Hin. simplify_eq. simpl. rewrite dom_insert_L.
      set_solver.
  - simpl in Hrun.
    destruct (process_ingestion_documents _ _ _ _ _ Hrun)
      as [-> | (st & nt & _ & ->)]; [done|].
    by rewrite !dom_alter_L.
  - apply token_stream_frame in Hq. by rewrite Hq.
Qed.

(** X20. Records are never deleted and tasks never dangle: no step of the
    service removes a key from the status map, and in every state the
    service can reach, each background task that waits to run is for a
    [document_id] that has a record, so that a scheduled ingestion always
    finds its document. *)
Theorem scheduled_documents_are_stored (sv : Service) :
  reachable sv →
  (∀ doc, Task_process_ingestion doc ∈ pending sv →
     is_Some (DOCUMENTS (state sv) !! doc))
  ∧ (∀ sv' k, step sv sv' →
       is_Some (DOCUMENTS (state sv) !! k) →
       is_Some (DOCUMENTS (state sv') !! k)).
Proof.
  intros Hreach. split.
  - unfold reachable in Hreach.
    eapply (rtc_ind_r (λ sv, ∀ doc, Task_process_ingestion doc ∈ pending sv →
                               is_Some (DOCUMENTS (state sv) !! doc)) boot);
      [| |exact Hreach].
    + intros doc Hin. simpl in Hin. by apply elem_of_nil in Hin.
    + intros sv1 sv2 _ Hstep IH doc Hin.
      pose proof (step_dom _ _ Hstep) as Hdom.
      assert (Task_process_ingestion doc ∈ pending sv1
              ∨ DOCUMENTS (state sv2) !! doc ≠ None) as [Hold|Hnew].
      { destruct Hstep as [w payload sv0 response tasks s' Hing
                          |w t before after sv0 r s' Hp Hrun
                          |w prompt kb_id sv0 out s' Hq]; simpl in *.
        - destruct (ingest_cases w payload [] (state sv0))
            as [Hbad|(doc' & record & resp & Hok & _)].
          + rewrite Hbad in Hing. simplify_eq. rewrite app_nil_r in Hin.
            by left.
          + rewrite Hok in Hing. simplify_eq. simpl.
            apply elem_of_app in Hin as [Hin|Hin]; [by left|].
            apply list_elem_of_singleton in Hin. simplify_eq.
            right. by rewrite lookup_insert_eq.
        - left. rewrite Hp. apply elem_of_app in Hin as [Hin|Hin].
          + apply elem_of_app. by left.
          + apply elem_of_app. right. by right.
        - by left. }
      * apply elem_of_dom. apply Hdom. apply elem_of_dom. by apply IH.
      * by destruct (DOCUMENTS (state sv2) !! doc).
  - intros sv' k Hstep Hk. apply elem_of_dom.
    apply (step_dom _ _ Hstep). by apply elem_of_dom.
Qed.

Lemma scheduled_documents_are_stored_witness :
  (∀ doc, Task_process_ingestion doc ∈ [Task_process_ingestion (lit "d1")] →
     is_Some (DOCUMENTS (Demo.accepted "/data/a.txt") !! doc))
  ∧ (∀ sv' k,
       step {| state := Demo.accepted "/data/a.txt";
               pending := [Task_process_ingestion (lit "d1")] |} sv' →
       is_Some (DOCUMENTS (Demo.accepted "/data/a.txt") !! k) →
       is_Some (DOCUMENTS (state sv') !! k)).
Proof.
  apply (scheduled_documents_are_stored
           {| state := Demo.accepted "/data/a.txt";
              pending := [Task_process_ingestion (lit "d1")] |}).
  apply rtc_once.
  apply (step_ingest Demo.online (Demo.payload "d1" "kb" "/data/a.txt") boot
           (ingest Demo.online (Demo.payload "d1" "kb" "/data/a.txt") []
              initial_state).1.1
           [Task_process_ingestion (lit "d1")]
           (Demo.accepted "/data/a.txt")).
  vm_compute; reflexivity.
Defined.

(** ** The query handler *)

Lemma answer_default_namespace w prompt kb_id s :
  answer w prompt (or_else (Some kb_id) (lit "kb-default")) s
  = answer w prompt kb_id s.
Proof.
  unfold answer. by destruct kb_id.
Qed.

(** X21. The query handler answers 400 with ["prompt is required"] when
    the prompt is absent or empty, and otherwise hands back the generator
    right away, before any retrieval; the namespace searched is the
    submitted [kb_id], and ["kb-default"] when [kb_id] is absent or
    empty. *)
Theorem rag_stream_intake (w : World) (payload : Payload) :
  (payload !! lit "prompt" = None ∨ payload !! lit "prompt" = Some blank →
   rag_stream w payload = HTTPException 400 (lit "prompt is required"))
  ∧ (∀ prompt, payload !! lit "prompt" = Some prompt → prompt ≠ blank →
       ∃ generator,
         rag_stream w payload = Return generator
         ∧ ∀ s, generator s
                = token_stream w prompt
                    (or_else (payload !! lit "kb_id") (lit "kb-default")) s).
Proof.
  unfold rag_stream. split.
  - by intros [-> | ->].
  - intros prompt -> Hne. destruct prompt as [|c prompt]; [done|].
    cbn [truthy negb]. eexists. split; [reflexivity|].
    intros s. unfold token_stream.
    destruct (payload !! lit "kb_id") as [kb_id|]; cbn [default or_else].
    + destruct kb_id; [|done]. cbn [truthy].
      by rewrite <- (answer_default_namespace w _ blank).
    + by rewrite <- (answer_default_namespace w _ blank).
Qed.

Lemma rag_stream_intake_witness :
  rag_stream Demo.online ∅ = HTTPException 400 (lit "prompt is required")
  ∧ ∃ generator,
      rag_stream Demo.online {[ lit "prompt" := lit "hi" ]} = Return generator
      ∧ ∀ s, generator s
             = token_stream Demo.online (lit "hi")
                 (or_else (({[ lit "prompt" := lit "hi" ]} : Payload)
                             !! lit "kb_id") (lit "kb-default")) s.
Proof.
  split.
  - destruct (rag_stream_intake Demo.online ∅) as [H _].
    apply H. left. reflexivity.
  - destruct (rag_stream_intake Demo.online {[ lit "prompt" := lit "hi" ]})
      as [_ H].
    apply (H (lit "hi")); [reflexivity|discriminate].
Defined.

(** ** Edges of the two flows *)

(** X22. The index client is built before the credentials are checked:
    a run with chunks in hand and no embedding key still constructs the
    Pinecone client from [PINECONE_API_KEY] and leaves it cached, although
    the run itself ends with the status ["error"]. *)
Theorem client_cached_by_failed_run (w : World) (s : State) (k : pystr)
    (record : DocumentRecord) (chunks : list pystr) (api_key : pystr) :
  DOCUMENTS s !! k = Some record →
  chunked w record chunks →
  truthy (OPENAI_API_KEY w) = false →
  pc_client s = None →
  environ w !! lit "PINECONE_API_KEY" = Some api_key →
  api_key ≠ blank →
  Pinecone_init w api_key = Ok tt →
  ∃ s',
    process_ingestion w k s = (Ok tt, s')
    ∧ pc_client s' = Some (mkPinecone api_key)
    ∧ (status <$> DOCUMENTS s' !! k) = Some (lit "error").
Proof.
  intros Hk Hch Hkey Hnone Henv Hne Hinit.
  assert (get_pinecone w s
          = (Ok (Some (mkPinecone api_key)),
             with_pc_client (Some (mkPinecone api_key)) s)) as Hpc.
  { unfold get_pinecone, bind, get, call, modify, ret.
    rewrite Hnone, Henv. destruct api_key; [done|]. cbn [truthy negb].
    by rewrite Hinit. }
  pose proof (raises_credentials w s record chunks _ _ Hch (or_introl Hkey)
                Hpc (or_introl Hkey)) as Hr.
  eexists. split; [|split].
  - by rewrite (process_ingestion_present _ _ _ _ Hk),
      (ingestion_steps_raises _ k _ _ _ _ Hr).
  - reflexivity.
  - by rewrite (mark_lookup _ _ _ _ record).
Qed.

Lemma client_cached_by_failed_run_witness :
  ∃ s',
    process_ingestion
      (Demo.world [(lit "PINECONE_API_KEY", lit "pc-test")] Demo.files
         Demo.two_chunks)
      (lit "d1") (Demo.accepted "/data/a.txt")
    = (Ok tt, s')
    ∧ pc_client s' = Some (mkPinecone (lit "pc-test"))
    ∧ (status <$> DOCUMENTS s' !! lit "d1") = Some (lit "error").
Proof.
  apply (client_cached_by_failed_run _ _ _
           (Demo.record "/data/a.txt" "processing" None)
           [lit "hel"; lit "lo world"]).
  - reflexivity.
  - exists (lit "hello world").
    split; [vm_compute; reflexivity|split; [vm_compute; reflexivity|done]].
  - reflexivity.
  - reflexivity.
  - reflexivity.
  - discriminate.
  - reflexivity.
Defined.

Lemma encode_from_surrogate object pre c post : ∀ pos,
  Forall (λ c, Utf8.is_surrogate c = false) pre →
  Utf8.is_surrogate c = true →
  Utf8.encode_from object pos (pre ++ c :: post)
  = Raise (UnicodeEncodeError object (pos + length pre)
             (pos + length pre + Utf8.surrogate_run (c :: post))).
Proof.
  induction pre as [|c0 pre IH]; intros pos Hpre Hc.
  - cbn [app Utf8.encode_from length]. rewrite Hc. by rewrite Nat.add_0_r.
  - inversion_clear Hpre as [|? ? Hc0 Hpre'].
    cbn [app Utf8.encode_from length]. rewrite Hc0, IH by done.
    by rewrite Nat.add_succ_r.
Qed.

(** X23. For a prompt that holds a lone surrogate, the fallback cannot
    encode its third fragment: when the [try] block has raised an
    [Exception], the stream sends the first two fixed fragments, sleeps a
    third time and then ends with [UnicodeEncodeError] for the first
    surrogate of the prompt, which sits 9 characters into the fragment;
    the fourth fragment is never sent. *)
Theorem fallback_breaks_on_surrogate (w : World) (kb_id : pystr) (s s' : State)
    (events : list event) (exc : exception) (pre post : pystr) (c : Z) :
  Forall (λ c, Utf8.is_surrogate c = false) pre →
  Utf8.is_surrogate c = true →
  answer w (pre ++ c :: post) kb_id s = ((events, Raise exc), s') →
  isinstance_Exception exc = true →
  token_stream w (pre ++ c :: post) kb_id s
  = ((events ++
      [ Sleep 120;
        Yield (lit "Synthesizing an AuroraMind reply. " ++ [10]);
        Sleep 120;
        Yield (lit "This stubbed AI service will echo your prompt back. "
               ++ [10]);
        Sleep 120 ],
      Raise (UnicodeEncodeError
               (lit "Prompt: " ++ [34] ++ (pre ++ c :: post) ++ [34]
                ++ lit ". ")
               (9 + length pre)
               (9 + length pre
                + Utf8.surrogate_run (c :: post ++ [34] ++ lit ". ")))),
     s').
Proof.
  intros Hpre Hc Ha He. unfold token_stream. rewrite Ha, He.
  unfold synthetic. cbn [play].
  destruct fixed_fragments as (H1 & H2 & _). rewrite H1, H2.
  assert (Utf8.encode (lit "Prompt: " ++ [34] ++ (pre ++ c :: post) ++ [34]
                       ++ lit ". ")
          = Raise (UnicodeEncodeError
                     (lit "Prompt: " ++ [34] ++ (pre ++ c :: post) ++ [34]
                      ++ lit ". ")
                     (9 + length pre)
                     (9 + length pre
                      + Utf8.surrogate_run (c :: post ++ [34] ++ lit ". "))))
    as ->; [|reflexivity].
  unfold Utf8.encode.
  replace (lit "Prompt: " ++ [34] ++ (pre ++ c :: post) ++ [34] ++ lit ". ")
    with (((lit "Prompt: " ++ [34]) ++ pre)
          ++ c :: (post ++ [34] ++ lit ". ")) at 2
    by (by rewrite <- !app_assoc).
  rewrite encode_from_surrogate; [|apply Forall_app; split;
                                    [repeat constructor|done]|done].
  by rewrite length_app.
Qed.

Lemma fallback_breaks_on_surrogate_witness :
  token_stream Demo.offline ([] ++ 0xD800 :: []) blank initial_state
  = (([] ++
      [ Sleep 120;
        Yield (lit "Synthesizing an AuroraMind reply. " ++ [10]);
        Sleep 120;
        Yield (lit "This stubbed AI service will echo your prompt back. "
               ++ [10]);
        Sleep 120 ],
      Raise (UnicodeEncodeError
               (lit "Prompt: " ++ [34] ++ ([] ++ 0xD800 :: []) ++ [34]
                ++ lit ". ")
               (9 + length ([] : pystr))
               (9 + length ([] : pystr)
                + Utf8.surrogate_run (0xD800 :: [] ++ [34] ++ lit ". ")))),
     initial_state).
Proof.
  apply (fallback_breaks_on_surrogate Demo.offline blank initial_state
           initial_state []
           (RuntimeError (lit "vector or embedding client missing"))
           [] [] 0xD800).
  - constructor.
  - reflexivity.
  - vm_compute; reflexivity.
  - reflexivity.
Defined.
